(** * Contact manager: normalization, store operations and their invariants

    A shallow embedding of [Normal_Files/day2_contact_manager.py]:
    [normalize_phone], [normalize_name] and the methods of class
    [ContactManager] ([load], [save], [add_contact], [view_contacts],
    [search], [delete], [_remove_from_list], [_key_for_contact_fields]).

    Python [str] values are sequences of Unicode code points.  The three
    facts about characters that the program takes from the Python runtime
    (which code points the regular expression class [\d] accepts, which
    ones [str.strip] removes, and what [str.lower] returns) are the fields
    of the class [PyText]; every definition and theorem is parametric in
    it.  [ascii_text] is its ASCII fragment, used to run the program on
    ASCII inputs. *)

From Stdlib Require Import List Bool Arith NArith ZArith Lia.
From Stdlib Require Import Ascii Permutation.
From Stdlib Require String.
From Stdlib Require Floats.SpecFloat.
Import ListNotations.
Import String.StringSyntax.

Set Warnings "-register-all".
Local Open Scope string_scope.
Local Open Scope list_scope.

(* ------------------------------------------------------------------ *)
(** ** Strings *)

Definition char : Type := N.
Definition str : Type := list char.

(** A string literal of the source, as code points. *)
Definition lit (x : String.string) : str :=
  List.map N_of_ascii (String.list_ascii_of_string x).

Definition char_eqb (a b : char) : bool := N.eqb a b.

Fixpoint str_eqb (a b : str) : bool :=
  match a, b with
  | [], [] => true
  | x :: a', y :: b' => char_eqb x y && str_eqb a' b'
  | _, _ => false
  end.

(** [s.startswith(p)] *)
Fixpoint startswith (s p : str) : bool :=
  match p, s with
  | [], _ => true
  | _ :: _, [] => false
  | y :: p', x :: s' => char_eqb x y && startswith s' p'
  end.

(** [s.endswith(p)] *)
Definition endswith (s p : str) : bool := startswith (rev s) (rev p).

(** [s[i:]] for [i >= 0] *)
Definition slice_from (i : nat) (s : str) : str := skipn i s.

(** [s[-n:]] for [n > 0]: the start index [len(s) - n] is clamped at 0. *)
Definition slice_last (n : nat) (s : str) : str := skipn (length s - n) s.

(** [q in s] on strings: some suffix of [s] starts with [q]. *)
Fixpoint contains (s q : str) : bool :=
  startswith s q ||
  match s with
  | [] => false
  | _ :: s' => contains s' q
  end.

Fixpoint dropwhile (f : char -> bool) (s : str) : str :=
  match s with
  | [] => []
  | c :: s' => if f c then dropwhile f s' else s
  end.

Class PyText : Type := {
  (** the class [\d] of [re] on a [str] pattern *)
  is_decimal : char -> bool;
  (** the characters [str.strip()] removes *)
  is_space : char -> bool;
  (** [str.lower()] *)
  lower : str -> str;
  (** lowercasing gives the empty string for the empty string only *)
  lower_empty : forall s, lower s = [] <-> s = []
}.

Section Normalization.
Context {T : PyText}.

(** [re.sub(r"\D", "", s)] *)
Definition re_sub_nondigit (s : str) : str := filter is_decimal s.

(** [s.strip()] *)
Definition strip (s : str) : str :=
  rev (dropwhile is_space (rev (dropwhile is_space s))).

End Normalization.

(* ------------------------------------------------------------------ *)
(** ** Values *)

(** The Python values that reach the program: what [json.load] builds and
    what a caller may pass as an argument. *)
Inductive value : Type :=
| VNone
| VBool (b : bool)
| VInt (z : Z)
| VFloat (f : SpecFloat.spec_float)
| VStr (s : str)
| VList (l : list value)
| VDict (d : list (str * value)).

Definition isinstance_str (v : value) : bool :=
  match v with VStr _ => true | _ => false end.

(** Truth value of an object in a condition. *)
Definition truthy (v : value) : bool :=
  match v with
  | VNone => false
  | VBool b => b
  | VInt z => negb (Z.eqb z 0)
  | VFloat f => match f with SpecFloat.S754_zero _ => false | _ => true end
  | VStr s => match s with [] => false | _ => true end
  | VList l => match l with [] => false | _ => true end
  | VDict d => match d with [] => false | _ => true end
  end.

(** [d.get(k, default)] on a [dict] with string keys. *)
Fixpoint dict_get (d : list (str * value)) (k : str) (default : value) : value :=
  match d with
  | [] => default
  | (k', v) :: d' => if str_eqb k' k then v else dict_get d' k default
  end.

(** Truth value of an [Optional[str]]: [None] and [""] are false. *)
Definition truthy_opt (o : option str) : bool :=
  match o with
  | Some (_ :: _) => true
  | _ => false
  end.

(** [o or ""] on an [Optional[str]] *)
Definition or_empty (o : option str) : str :=
  match o with
  | Some s => s
  | None => []
  end.

Section Normalizers.
Context {T : PyText}.

Definition normalize_phone (phone : value) : option str :=
  match phone with
  | VStr p =>
      let digits := re_sub_nondigit p in
      if length digits =? 10 then Some digits
      else if (length digits =? 11) && startswith digits (lit "0")
      then Some (slice_from 1 digits)
      else if (12 <=? length digits)
              && endswith digits (slice_last 10 (re_sub_nondigit p))
      then
        let last10 := slice_last 10 digits in
        if length last10 =? 10 then Some last10 else None
      else None
  | _ => None
  end.

Definition normalize_name (name : value) : option str :=
  match name with
  | VStr s =>
      let n := strip s in
      match n with
      | [] => None
      | _ => Some n
      end
  | _ => None
  end.

End Normalizers.

(* ------------------------------------------------------------------ *)
(** ** Exceptions, the store and its monad *)

Inductive exn_class : Type :=
| ValueError
| KeyError
| AttributeError
| FileNotFoundError
| JSONDecodeError
| UnicodeDecodeError
| UnicodeEncodeError
| PermissionError.

Record exn : Type := Exn { exn_kind : exn_class; exn_msg : String.string }.

Definition exn_class_eqb (a b : exn_class) : bool :=
  match a, b with
  | ValueError, ValueError | KeyError, KeyError
  | AttributeError, AttributeError
  | FileNotFoundError, FileNotFoundError
  | JSONDecodeError, JSONDecodeError
  | UnicodeDecodeError, UnicodeDecodeError
  | UnicodeEncodeError, UnicodeEncodeError
  | PermissionError, PermissionError => true
  | _, _ => false
  end.

(** [except cls:] against a raised exception.  [FileNotFoundError] and
    [json.JSONDecodeError], the two classes the program names in a
    handler, have no subclass among the classes above. *)
Definition handles (cls : exn_class) (e : exn) : bool :=
  exn_class_eqb cls (exn_kind e).

(** A contact: the [dict] literals [{"name": ..., "phone": ...}] built in
    [load] and [add_contact], whose two fields always hold a [str]. *)
Record contact : Type := Contact { name : str; phone : str }.

(** An [OrderedDict] from keys to contacts: its items in insertion order. *)
Definition odict : Type := list (str * contact).

Module OrderedDict.

(** [k in d] *)
Definition contains_key (d : odict) (k : str) : bool :=
  existsb (fun kv => str_eqb (fst kv) k) d.

(** [d[k] = v]: a present key keeps its place, a new one goes last. *)
Fixpoint setitem (d : odict) (k : str) (v : contact) : odict :=
  match d with
  | [] => [(k, v)]
  | (k', v') :: d' =>
      if str_eqb k' k then (k', v) :: d' else (k', v') :: setitem d' k v
  end.

(** [d.pop(k)]: the value and the remaining dictionary, [None] when the
    key is absent (where Python raises [KeyError]). *)
Fixpoint pop (d : odict) (k : str) : option (contact * odict) :=
  match d with
  | [] => None
  | (k', v') :: d' =>
      if str_eqb k' k then Some (v', d')
      else match pop d' k with
           | Some (v, r) => Some (v, (k', v') :: r)
           | None => None
           end
  end.

(** [list(d.items())], [d.values()] *)
Definition items (d : odict) : list (str * contact) := d.
Definition values (d : odict) : list contact := List.map snd d.
Definition keys (d : odict) : list str := List.map fst d.

End OrderedDict.

(** The attributes of a [ContactManager] that the methods read and write
    ([filename] only names the file, whose content is an argument of
    [load] and the result of [save]). *)
Record ContactManager : Type := Manager {
  contacts : odict;
  contacts_list : list contact
}.

Inductive outcome (A : Type) : Type :=
| Return (a : A)
| Raise (e : exn).
Arguments Return {A} a.
Arguments Raise {A} e.

(** A method body: it runs on the manager, returns or raises, and leaves
    the manager as it is at that point. *)
Definition M (A : Type) : Type := ContactManager -> outcome A * ContactManager.

Definition ret {A : Type} (a : A) : M A := fun self => (Return a, self).

Definition raise {A : Type} (e : exn) : M A := fun self => (Raise e, self).

Definition bind {A B : Type} (x : M A) (f : A -> M B) : M B :=
  fun self =>
    match x self with
    | (Return a, self') => f a self'
    | (Raise e, self') => (Raise e, self')
    end.

Notation "x <- c1 ;; c2" := (bind c1 (fun x => c2))
  (at level 61, c1 at next level, right associativity).
Notation "c1 ;; c2" := (bind c1 (fun _ => c2))
  (at level 61, right associativity).

Definition get_contacts : M odict := fun self => (Return (contacts self), self).

Definition get_contacts_list : M (list contact) :=
  fun self => (Return (contacts_list self), self).

Definition set_contacts (d : odict) : M unit :=
  fun self => (Return tt, Manager d (contacts_list self)).

Definition set_contacts_list (l : list contact) : M unit :=
  fun self => (Return tt, Manager (contacts self) l).

(** [for x in l: body(x)] *)
Fixpoint for_each {A : Type} (l : list A) (body : A -> M unit) : M unit :=
  match l with
  | [] => ret tt
  | x :: l' => body x ;; for_each l' body
  end.

(** What [open(filename) ... json.load(f)] does in the [try] block of
    [load]: it raises (no such file: [FileNotFoundError]; text that is
    not JSON: [JSONDecodeError]; bytes that are not UTF-8:
    [UnicodeDecodeError]; a file that may not be read:
    [PermissionError]) or it returns the decoded value. *)
Inductive read_result : Type :=
| ReadRaises (e : exn)
| ReadData (data : value).

(** What the file system does when [save] opens [self.filename] for
    writing and writes to it: [open] raises (a missing directory:
    [FileNotFoundError]; a file that may not be written:
    [PermissionError]), or the file is opened and truncated and the device
    then fails ([OSError]) before the text is written out, or the file is
    opened and truncated and takes whatever is written. *)
Inductive write_env : Type :=
| OpenRaises (e : exn)
| WriteRaises (e : exn)
| Writes.

(** What the file holds once [save] is over: what it held before, a text
    cut short where the device failed, or a content on which a later
    [open] and [json.load] do as the [read_result] says. *)
Inductive file_after : Type :=
| FileAsBefore
| FileCutShort
| FileReads (r : read_result).

(** The code points that [str] may hold and the UTF-8 codec refuses to
    encode: the surrogates, U+D800 to U+DFFF. *)
Definition is_surrogate (c : char) : bool :=
  N.leb 55296 c && N.leb c 57343.

(** The file object of [save] can write the string. *)
Definition utf8_encodable (s : str) : bool :=
  forallb (fun c => negb (is_surrogate c)) s.

(* ------------------------------------------------------------------ *)
(** ** class ContactManager *)

Section Methods.
Context {T : PyText}.

(** [name.lower()] on an [Optional[str]]: [None] has no such method. *)
Definition method_lower (o : option str) : M str :=
  match o with
  | Some n => ret (lower n)
  | None => raise (Exn AttributeError "'NoneType' object has no attribute 'lower'")
  end.

(** [contact = self.contacts.pop(key)] *)
Definition contacts_pop (key : str) : M contact :=
  d <- get_contacts ;;
  match OrderedDict.pop d key with
  | Some (v, d') => set_contacts d' ;; ret v
  | None => raise (Exn KeyError "")
  end.

(** [_remove_from_list]: the scan of [enumerate(self.contacts_list)] that
    deletes the first entry with the same name and phone and returns. *)
Fixpoint remove_first_equal (ct : contact) (l : list contact) : list contact :=
  match l with
  | [] => []
  | c :: l' =>
      if str_eqb (name c) (name ct) && str_eqb (phone c) (phone ct)
      then l'
      else c :: remove_first_equal ct l'
  end.

Definition _remove_from_list (ct : contact) : M unit :=
  l <- get_contacts_list ;;
  set_contacts_list (remove_first_equal ct l).

(** The body of the [for raw in data] loop of [load]; [ret tt] where the
    source says [continue]. *)
Definition load_entry (raw : value) : M unit :=
  match raw with
  | VDict d =>
      let name := normalize_name (dict_get d (lit "name") (VStr (lit ""))) in
      let phone_norm :=
        if truthy (dict_get d (lit "phone") VNone)
        then normalize_phone (dict_get d (lit "phone") (VStr (lit "")))
        else None in
      if negb (truthy_opt name) && negb (truthy_opt phone_norm) then ret tt
      else
        key <- (if truthy_opt phone_norm then ret (or_empty phone_norm)
                else method_lower name) ;;
        d <- get_contacts ;;
        if OrderedDict.contains_key d key then ret tt
        else
          let ct := Contact (or_empty name) (or_empty phone_norm) in
          set_contacts (OrderedDict.setitem d key ct) ;;
          l <- get_contacts_list ;;
          set_contacts_list (l ++ [ct])
  | _ => ret tt
  end.

(** [load], with the outcome of reading [self.filename] as argument. *)
Definition load (file : read_result) : M unit :=
  set_contacts [] ;;
  set_contacts_list [] ;;
  match file with
  | ReadRaises e =>
      if handles FileNotFoundError e then ret tt
      else if handles JSONDecodeError e then ret tt
      else raise e
  | ReadData data =>
      match data with
      | VList l => for_each l load_entry
      | _ => ret tt
      end
  end.

(** A contact as the [dict] that [json.dump] writes. *)
Definition contact_value (c : contact) : value :=
  VDict [(lit "name", VStr (name c)); (lit "phone", VStr (phone c))].

(** Both fields of the contact can be written. *)
Definition contact_encodable (c : contact) : bool :=
  utf8_encodable (name c) && utf8_encodable (phone c).

(** [save]: how the call ends, the manager, and what the file holds
    afterwards.  When [open] raises, the file is as before.  Once the file
    is open it has been truncated; [json.dump(..., ensure_ascii=False)]
    writes the text piece by piece, and the piece of a string with a
    surrogate makes the file object raise [UnicodeEncodeError], leaving in
    the file the text up to that string, which is not JSON.  When every
    piece is written the file holds the list, which is what a later
    [json.load] returns. *)
Definition save (env : write_env) (self : ContactManager)
    : (outcome unit * ContactManager) * file_after :=
  match env with
  | OpenRaises e => ((Raise e, self), FileAsBefore)
  | WriteRaises e => ((Raise e, self), FileCutShort)
  | Writes =>
      if forallb contact_encodable (contacts_list self)
      then ((Return tt, self),
            FileReads (ReadData (VList (List.map contact_value (contacts_list self)))))
      else ((Raise (Exn UnicodeEncodeError
                      "'utf-8' codec can't encode character: surrogates not allowed"),
             self),
            FileReads (ReadRaises (Exn JSONDecodeError "Expecting value")))
  end.

Definition _key_for_contact_fields (name phone : value) : option str :=
  let phone_norm := if truthy phone then normalize_phone phone else None in
  if truthy_opt phone_norm then phone_norm
  else
    let n := if truthy name then normalize_name name else None in
    if truthy_opt n then option_map lower n else None.

Definition add_contact (name phone : value) : M contact :=
  let name_clean := normalize_name name in
  if negb (truthy_opt name_clean)
  then raise (Exn ValueError "Name is required.")
  else
    let phone_norm := normalize_phone phone in
    if negb (truthy_opt phone_norm)
    then raise (Exn ValueError
      "Phone is invalid. Provide a valid 10-digit number (country code allowed).")
    else
      let key := or_empty phone_norm in
      d <- get_contacts ;;
      if OrderedDict.contains_key d key
      then raise (Exn ValueError "Phone already exists.")
      else
        let ct := Contact (or_empty name_clean) (or_empty phone_norm) in
        set_contacts (OrderedDict.setitem d key ct) ;;
        l <- get_contacts_list ;;
        set_contacts_list (l ++ [ct]) ;;
        ret ct.

(** [view_contacts] and [search] are generators; the model returns the
    sequence of the contacts they yield. *)
Definition view_contacts : M (list contact) := get_contacts_list.

Definition search (query : value) : M (list contact) :=
  match query with
  | VStr s =>
      let q := lower (strip s) in
      match q with
      | [] => ret []
      | _ =>
          l <- get_contacts_list ;;
          ret (filter (fun c => contains (lower (name c)) q || contains (phone c) q) l)
      end
  | _ => ret []
  end.

(** The [for key, val in list(self.contacts.items())] loop of [delete]. *)
Fixpoint delete_by_name (items : list (str * contact)) (target : str)
    (removed_any : bool) : M bool :=
  match items with
  | [] => ret removed_any
  | (key, val) :: rest =>
      if str_eqb (lower (name val)) target
      then
        ct <- contacts_pop key ;;
        _remove_from_list ct ;;
        delete_by_name rest target true
      else delete_by_name rest target removed_any
  end.

Definition delete (phone_or_name : value) : M bool :=
  match phone_or_name with
  | VStr s =>
      match strip s with
      | [] => ret false
      | _ =>
          let phone_key := normalize_phone phone_or_name in
          d <- get_contacts ;;
          if truthy_opt phone_key && OrderedDict.contains_key d (or_empty phone_key)
          then
            ct <- contacts_pop (or_empty phone_key) ;;
            _remove_from_list ct ;;
            ret true
          else
            let target := lower (strip s) in
            delete_by_name (OrderedDict.items d) target false
      end
  | _ => ret false
  end.

(** [ContactManager(filename)]: both containers start empty, then [load]. *)
Definition __init__ (file : read_result) : outcome ContactManager :=
  match load file (Manager [] []) with
  | (Return _, self) => Return self
  | (Raise e, _) => Raise e
  end.

End Methods.

(* ------------------------------------------------------------------ *)
(** ** Runs of a manager *)

(** A call made on a manager by its owner.  [CallLoad] carries what the
    file holds at that moment, which may be what an earlier [save] wrote
    or anything else. *)
Inductive call : Type :=
| CallAdd (name phone : value)
| CallView
| CallSearch (query : value)
| CallDelete (phone_or_name : value)
| CallLoad (file : read_result)
| CallSave (env : write_env).

Section Runs.
Context {T : PyText}.

(** The manager after a call, whether the call returned or raised. *)
Definition run_call (c : call) (self : ContactManager) : ContactManager :=
  match c with
  | CallAdd n p => snd (add_contact n p self)
  | CallView => snd (view_contacts self)
  | CallSearch q => snd (search q self)
  | CallDelete x => snd (delete x self)
  | CallLoad f => snd (load f self)
  | CallSave env => snd (fst (save env self))
  end.

(** The states of a manager: the one its constructor leaves, and the ones
    any sequence of calls leads to from there. *)
Inductive reachable : ContactManager -> Prop :=
| reach_init : forall file self,
    __init__ file = Return self -> reachable self
| reach_call : forall c self,
    reachable self -> reachable (run_call c self).

End Runs.

(* ------------------------------------------------------------------ *)
(** ** The ASCII fragment of the character tables *)

Definition ascii_is_decimal (c : char) : bool :=
  (N.leb 48 c && N.leb c 57)%N.

Definition ascii_is_space (c : char) : bool :=
  (N.leb 9 c && N.leb c 13) || (N.leb 28 c && N.leb c 31) || N.eqb c 32.

Definition ascii_lower_char (c : char) : char :=
  if N.leb 65 c && N.leb c 90 then (c + 32)%N else c.

Definition ascii_lower (s : str) : str := List.map ascii_lower_char s.

(** The values CPython gives on code points below 128; above, every code
    point is left caseless, not a digit and not a space.  It serves to
    evaluate the program on ASCII inputs. *)
Definition ascii_text : PyText :=
  {| is_decimal := ascii_is_decimal;
     is_space := ascii_is_space;
     lower := ascii_lower;
     lower_empty := fun s =>
       conj (@map_eq_nil _ _ ascii_lower_char s)
            (fun E : s = [] => f_equal ascii_lower E) |}.

(* ------------------------------------------------------------------ *)
(** ** What the specification says of phone normalization *)

Section PhoneSpec.
Context {T : PyText}.

(** Stripping every non-digit character, as the specification has it:
    [digits_left s d] says that [d] is what is left of [s] when its
    characters are gone through in order, every digit kept and every
    other character dropped. *)
Inductive digits_left : str -> str -> Prop :=
| digits_end : digits_left [] []
| digits_keep : forall c s d,
    is_decimal c = true -> digits_left s d -> digits_left (c :: s) (c :: d)
| digits_drop : forall c s d,
    is_decimal c = false -> digits_left s d -> digits_left (c :: s) d.

(** The rules of the specification: [phone_spec v r] says that they give
    [r] for the input [v], [None] being "no normalized form".  A value
    that is not a string is rejected; for a string, with [d] the digits
    left after stripping: ten digits are returned as they are; eleven
    digits starting with "0" lose that zero; twelve or more digits give
    their last ten; anything else has no normalized form. *)
Inductive phone_spec : value -> option str -> Prop :=
| spec_not_str : forall v,
    isinstance_str v = false -> phone_spec v None
| spec_ten : forall s d,
    digits_left s d -> length d = 10 ->
    phone_spec (VStr s) (Some d)
| spec_leading_zero : forall s rest,
    digits_left s (lit "0" ++ rest) -> length rest = 10 ->
    phone_spec (VStr s) (Some rest)
| spec_last_ten : forall s front last10,
    digits_left s (front ++ last10) -> length last10 = 10 ->
    12 <= length (front ++ last10) ->
    phone_spec (VStr s) (Some last10)
| spec_otherwise : forall s d,
    digits_left s d ->
    length d <> 10 ->
    (length d = 11 -> forall rest, d <> lit "0" ++ rest) ->
    length d < 12 ->
    phone_spec (VStr s) None.

(** The same rules on the result of the stripping step of the program. *)
Inductive phone_rule : value -> option str -> Prop :=
| rule_not_str : forall v,
    isinstance_str v = false -> phone_rule v None
| rule_ten : forall s,
    length (re_sub_nondigit s) = 10 ->
    phone_rule (VStr s) (Some (re_sub_nondigit s))
| rule_leading_zero : forall s rest,
    re_sub_nondigit s = lit "0" ++ rest -> length rest = 10 ->
    phone_rule (VStr s) (Some rest)
| rule_last_ten : forall s front last10,
    re_sub_nondigit s = front ++ last10 -> length last10 = 10 ->
    12 <= length (re_sub_nondigit s) ->
    phone_rule (VStr s) (Some last10)
| rule_otherwise : forall s,
    length (re_sub_nondigit s) <> 10 ->
    (length (re_sub_nondigit s) = 11 ->
     forall rest, re_sub_nondigit s <> lit "0" ++ rest) ->
    length (re_sub_nondigit s) < 12 ->
    phone_rule (VStr s) None.

End PhoneSpec.

(* ------------------------------------------------------------------ *)
(** ** Well-formed stores *)

Section StoreSpec.
Context {T : PyText}.

(** The derived key of a stored contact, as [_key_for_contact_fields]
    computes it from the two fields. *)
Definition derived_key (c : contact) : option str :=
  _key_for_contact_fields (VStr (name c)) (VStr (phone c)).

(** Ten characters, all of them digits. *)
Definition valid_phone (p : str) : Prop :=
  length p = 10 /\ forallb is_decimal p = true.

(** A contact as the program stores it: a trimmed name, a phone that is
    empty or valid, and not both empty. *)
Record valid_contact (c : contact) : Prop := {
  name_trimmed : strip (name c) = name c;
  phone_empty_or_valid : phone c = [] \/ valid_phone (phone c);
  name_or_phone : name c <> [] \/ phone c <> []
}.

(** The key under which a valid contact is indexed. *)
Definition key_of (c : contact) : str :=
  match phone c with
  | [] => lower (name c)
  | _ => phone c
  end.

(** The invariant of the store: the index has one entry per key, every
    entry is a valid contact filed under its own key, and the ordered list
    is the sequence of the values of the index. *)
Record store_inv (self : ContactManager) : Prop := {
  inv_keys : NoDup (OrderedDict.keys (contacts self));
  inv_valid : Forall (fun kv => valid_contact (snd kv) /\ fst kv = key_of (snd kv))
                (contacts self);
  inv_list : contacts_list self = OrderedDict.values (contacts self)
}.

(** What the specification says of one entry of a loaded list: a
    malformed entry (not an object) and an entry whose name and phone both
    fail to normalize give nothing; any other gives its derived key, the
    normalized phone if there is one and the lowercased trimmed name if
    not, with the record to store. *)
Definition entry_record (raw : value) : option (str * contact) :=
  match raw with
  | VDict d =>
      match normalize_name (dict_get d (lit "name") VNone),
            normalize_phone (dict_get d (lit "phone") VNone) with
      | None, None => None
      | Some n, None => Some (lower n, Contact n [])
      | Some n, Some p => Some (p, Contact n p)
      | None, Some p => Some (p, Contact [] p)
      end
  | _ => None
  end.

(** Bulk import as the specification describes it: the entries in order,
    each one skipped when it gives no record or when its key is already
    loaded, and appended otherwise. *)
Fixpoint import_entries (l : list value) (loaded : odict) : odict :=
  match l with
  | [] => loaded
  | raw :: l' =>
      match entry_record raw with
      | None => import_entries l' loaded
      | Some (k, c) =>
          if OrderedDict.contains_key loaded k
          then import_entries l' loaded
          else import_entries l' (loaded ++ [(k, c)])
      end
  end.

(** The index without the entries of key [k]. *)
Definition without (k : str) (d : odict) : odict :=
  filter (fun kv => negb (str_eqb (fst kv) k)) d.

(** Every entry is filed under the key of its own record. *)
Definition keyed (d : odict) : Prop :=
  Forall (fun kv => fst kv = key_of (snd kv)) d.

(** The name of [c] is the trimmed identifier [s], letter case apart. *)
Definition name_matches (s : str) (c : contact) : bool :=
  str_eqb (lower (name c)) (lower (strip s)).

(** The fallback of [delete]: every entry whose name matches leaves the
    index and the list, and the result tells whether there was one. *)
Definition delete_named (s : str) (self : ContactManager)
    : outcome bool * ContactManager :=
  let d' := filter (fun kv => negb (name_matches s (snd kv))) (contacts self) in
  (Return (existsb (name_matches s) (contacts_list self)),
   Manager d' (OrderedDict.values d')).

(** The criterion of a search as the specification words it: the name
    contains the query, letter case apart, or the phone contains the
    digits of the query. *)
Definition claimed_search_match (query : str) (c : contact) : bool :=
  contains (lower (name c)) (lower query)
  || contains (phone c) (re_sub_nondigit query).

(** The contact has a phone. *)
Definition has_phone (c : contact) : bool :=
  match phone c with [] => false | _ => true end.

(** [q] occurs in [s] as a contiguous substring. *)
Definition substring (q s : str) : Prop :=
  exists pre post, s = pre ++ q ++ post.

End StoreSpec.

(* ------------------------------------------------------------------ *)
(** ** The script *)


Section Script.
Context {T : PyText}.




End Script.

(* ------------------------------------------------------------------ *)
(** * Properties *)

(** ** Strings *)

Lemma char_eqb_eq (a b : char) : char_eqb a b = true <-> a = b.
Proof. apply N.eqb_eq. Qed.

Lemma str_eqb_eq (a b : str) : str_eqb a b = true <-> a = b.
Proof.
  revert b; induction a as [|x a IH]; intros [|y b]; simpl;
    try (split; [discriminate | congruence]); try tauto.
  rewrite andb_true_iff, char_eqb_eq, IH.
  split; [intros [-> ->]; reflexivity | intros E; inversion E; auto].
Qed.

Lemma str_eqb_refl (a : str) : str_eqb a a = true.
Proof. apply str_eqb_eq; reflexivity. Qed.

Lemma str_eqb_neq (a b : str) : str_eqb a b = false <-> a <> b.
Proof.
  rewrite <- str_eqb_eq. destruct (str_eqb a b); split; congruence.
Qed.

Lemma startswith_spec (s p : str) :
  startswith s p = true <-> exists r, s = p ++ r.
Proof.
  revert s; induction p as [|y p IH]; intros s; simpl.
  - split; [exists s; reflexivity | destruct s; reflexivity].
  - destruct s as [|x s]; simpl.
    + split; [discriminate | intros [r E]; discriminate].
    + rewrite andb_true_iff, char_eqb_eq, IH. split.
      * intros [-> [r ->]]. exists r; reflexivity.
      * intros [r E]. inversion E; subst. split; [reflexivity | exists r; reflexivity].
Qed.

Lemma endswith_spec (s p : str) :
  endswith s p = true <-> exists r, s = r ++ p.
Proof.
  unfold endswith. rewrite startswith_spec. split; intros [r E].
  - exists (rev r). rewrite <- (rev_involutive s), E, rev_app_distr, rev_involutive.
    reflexivity.
  - exists (rev r). rewrite E, rev_app_distr. reflexivity.
Qed.

Lemma slice_last_split (n : nat) (s : str) :
  s = firstn (length s - n) s ++ slice_last n s.
Proof. unfold slice_last. symmetry; apply firstn_skipn. Qed.

Lemma endswith_slice_last (n : nat) (s : str) :
  endswith s (slice_last n s) = true.
Proof. apply endswith_spec. eexists. apply slice_last_split. Qed.

Lemma slice_last_length (n : nat) (s : str) :
  n <= length s -> length (slice_last n s) = n.
Proof. intros H. unfold slice_last. rewrite length_skipn. lia. Qed.

Lemma slice_last_app (front back : str) :
  slice_last (length back) (front ++ back) = back.
Proof.
  unfold slice_last. rewrite length_app.
  replace (length front + length back - length back) with (length front + 0) by lia.
  rewrite skipn_app, Nat.add_0_r, skipn_all.
  replace (length front - length front) with 0 by lia. reflexivity.
Qed.

Lemma contains_spec (s q : str) :
  contains s q = true <-> exists pre post, s = pre ++ q ++ post.
Proof.
  induction s as [|x s IH]; cbn [contains].
  - rewrite orb_false_r, startswith_spec. split.
    + intros [r E]. exists [], r. exact E.
    + intros [pre [post E]]. destruct pre; simpl in E.
      * exists post; exact E.
      * discriminate.
  - rewrite orb_true_iff, startswith_spec, IH. split.
    + intros [[r E] | [pre [post E]]].
      * exists [], r. exact E.
      * exists (x :: pre), post. simpl. rewrite E. reflexivity.
    + intros [[|y pre] [post E]]; simpl in E.
      * left. exists post; exact E.
      * right. inversion E; subst. exists pre, post; reflexivity.
Qed.

Lemma contains_refl (s : str) : contains s s = true.
Proof. apply contains_spec. exists [], []. rewrite app_nil_r. reflexivity. Qed.

(** ** Phone normalization *)

Section PhoneProofs.
Context {T : PyText}.

Lemma normalize_phone_rule (v : value) : phone_rule v (normalize_phone v).
Proof.
  destruct v as [| b | z | f | s | l | d]; try (apply rule_not_str; reflexivity).
  unfold normalize_phone. cbv zeta.
  destruct (Nat.eqb_spec (length (re_sub_nondigit s)) 10) as [E10 | N10].
  { apply rule_ten; exact E10. }
  destruct (Nat.eqb_spec (length (re_sub_nondigit s)) 11) as [E11 | N11];
    cbn [andb].
  - destruct (startswith (re_sub_nondigit s) (lit "0")) eqn:Z.
    + apply startswith_spec in Z. destruct Z as [rest Z].
      rewrite Z at 1. change (slice_from 1 (lit "0" ++ rest)) with rest.
      apply rule_leading_zero; [exact Z | ].
      rewrite Z, length_app in E11. change (length (lit "0")) with 1 in E11. lia.
    + destruct (Nat.leb_spec 12 (length (re_sub_nondigit s))) as [L | L];
        [lia | cbn [andb]].
      apply rule_otherwise; [exact N10 | | lia].
      intros _ rest E.
      assert (startswith (re_sub_nondigit s) (lit "0") = true) as Z'
        by (apply startswith_spec; exists rest; exact E).
      congruence.
  - destruct (Nat.leb_spec 12 (length (re_sub_nondigit s))) as [L | L];
      cbn [andb].
    + rewrite endswith_slice_last.
      rewrite slice_last_length by lia. rewrite Nat.eqb_refl.
      eapply rule_last_ten; [apply (slice_last_split 10) | | exact L].
      apply slice_last_length; lia.
    + apply rule_otherwise; [exact N10 | intros; contradiction | exact L].
Qed.

Lemma phone_rule_functional (v : value) (r r' : option str) :
  phone_rule v r -> phone_rule v r' -> r = r'.
Proof.
  assert (len0 : forall rest : str, length (lit "0" ++ rest) = S (length rest))
    by reflexivity.
  assert (last : forall (d front back : str),
             d = front ++ back -> length back = 10 -> back = slice_last 10 d).
  { intros d front back -> <-. symmetry; apply slice_last_app. }
  intros H H'.
  inversion H; subst; inversion H'; subst; try reflexivity; try discriminate;
    repeat match goal with
    | E : re_sub_nondigit ?s = lit "0" ++ _, N : _ -> forall rest, _ <> _ |- _ =>
        exfalso; apply (N ltac:(rewrite E, len0; lia) _ E)
    | E : re_sub_nondigit ?s = lit "0" ++ _, L : context [length (re_sub_nondigit ?s)] |- _ =>
        rewrite E, len0 in L
    | E : re_sub_nondigit ?s = lit "0" ++ ?a, E' : re_sub_nondigit ?s = lit "0" ++ ?b |- _ =>
        rewrite E in E'; inversion E'; subst; clear E'
    end; try lia; try reflexivity.
  f_equal.
  match goal with
  | E : re_sub_nondigit ?s = _ ++ ?a, E' : re_sub_nondigit ?s = _ ++ ?b |- ?a = ?b =>
      rewrite (last _ _ _ E) by assumption; rewrite (last _ _ _ E') by assumption;
      reflexivity
  end.
Qed.

Lemma digits_left_stripped (s d : str) :
  digits_left s d <-> d = re_sub_nondigit s.
Proof.
  unfold re_sub_nondigit. split.
  - induction 1 as [| c s d Hc _ IH | c s d Hc _ IH]; simpl.
    + reflexivity.
    + rewrite Hc, IH. reflexivity.
    + rewrite Hc. exact IH.
  - intros ->. induction s as [|c s IH]; simpl; [constructor | ].
    destruct (is_decimal c) eqn:Hc; constructor; assumption.
Qed.

Lemma phone_spec_rule (v : value) (r : option str) :
  phone_spec v r <-> phone_rule v r.
Proof.
  split; intros H; inversion H; subst;
    repeat match goal with
    | D : digits_left _ _ |- _ => apply digits_left_stripped in D
    end.
  - apply rule_not_str; assumption.
  - subst d. apply rule_ten; assumption.
  - apply rule_leading_zero; [symmetry | ]; assumption.
  - match goal with D : _ = re_sub_nondigit _ |- _ =>
      eapply rule_last_ten; [symmetry; exact D | assumption | rewrite <- D; assumption]
    end.
  - subst d. apply rule_otherwise; assumption.
  - apply spec_not_str; assumption.
  - apply spec_ten; [apply digits_left_stripped; reflexivity | assumption].
  - apply spec_leading_zero; [apply digits_left_stripped; symmetry | ]; assumption.
  - match goal with D : re_sub_nondigit _ = _ |- _ =>
      eapply spec_last_ten;
        [apply digits_left_stripped; symmetry; exact D | assumption
        | rewrite <- D; assumption]
    end.
  - eapply spec_otherwise; [apply digits_left_stripped; reflexivity | | | ];
      assumption.
Qed.

(** C1. Phone normalization rejects non-strings and otherwise follows the
    four rules on the digits that remain once every non-digit is stripped:
    exactly ten digits are returned as they are; eleven digits starting
    with "0" lose that zero; twelve or more digits give their last ten;
    anything else, and in particular fewer than ten digits, has no
    normalized form.  The result of [normalize_phone] is the one the rules
    determine, and no other. *)
Theorem normalize_phone_follows_rules (v : value) (r : option str) :
  (normalize_phone v = r <-> phone_spec v r) /\
  (forall s d, v = VStr s -> digits_left s d -> length d < 10 ->
               normalize_phone v = None).
Proof.
  split.
  - rewrite phone_spec_rule. split.
    + intros <-. apply normalize_phone_rule.
    + intros H. apply (phone_rule_functional _ _ _ (normalize_phone_rule v) H).
  - intros s d -> D L. apply digits_left_stripped in D. subst d.
    apply (phone_rule_functional _ _ _ (normalize_phone_rule (VStr s))).
    apply rule_otherwise; lia.
Qed.

End PhoneProofs.

Ltac strip_digits :=
  cbv [lit String.list_ascii_of_string List.map N_of_ascii N_of_digits
       app N.add N.mul Pos.add Pos.mul Pos.succ];
  repeat first
    [ apply digits_end
    | apply digits_keep; [reflexivity | ]
    | apply digits_drop; [reflexivity | ] ].

Lemma normalize_phone_follows_rules_witness :
  normalize_phone (T := ascii_text) (VStr (lit "98765-43210")) =
    Some (lit "9876543210") /\
  normalize_phone (T := ascii_text) (VStr (lit "(0) 98765 43210")) =
    Some (lit "9876543210") /\
  normalize_phone (T := ascii_text) (VStr (lit "+91 98765-43210")) =
    Some (lit "9876543210") /\
  normalize_phone (T := ascii_text) (VStr (lit "abcdefghij")) = None /\
  normalize_phone (T := ascii_text) (VStr (lit "1-23")) = None.
Proof.
  split; [ | split; [ | split; [ | split]]].
  - apply (proj1 (normalize_phone_follows_rules (T := ascii_text) _ _)).
    apply spec_ten; [strip_digits | reflexivity].
  - apply (proj1 (normalize_phone_follows_rules (T := ascii_text) _ _)).
    apply spec_leading_zero; [strip_digits | reflexivity].
  - apply (proj1 (normalize_phone_follows_rules (T := ascii_text) _ _)).
    apply (spec_last_ten (T := ascii_text) _ (lit "91") (lit "9876543210"));
      [strip_digits | reflexivity | vm_compute; lia].
  - apply (proj1 (normalize_phone_follows_rules (T := ascii_text) _ _)).
    apply (spec_otherwise (T := ascii_text) _ []);
      [strip_digits | discriminate | discriminate | vm_compute; lia].
  - apply (proj2 (normalize_phone_follows_rules (T := ascii_text)
                    (VStr (lit "1-23")) None) (lit "1-23") (lit "123") eq_refl);
      [strip_digits | vm_compute; lia].
Defined.

(** ** Trimming *)

Section TextProofs.
Context {T : PyText}.

Lemma dropwhile_suffix (f : char -> bool) (s : str) :
  exists pre, s = pre ++ dropwhile f s /\ forallb f pre = true.
Proof.
  induction s as [|c s [pre [E F]]]; simpl.
  - exists []. split; reflexivity.
  - destruct (f c) eqn:Fc.
    + exists (c :: pre). simpl. rewrite Fc, F. split; [f_equal; exact E | reflexivity].
    + exists []. split; reflexivity.
Qed.

Lemma dropwhile_head (f : char -> bool) (s : str) (c : char) (r : str) :
  dropwhile f s = c :: r -> f c = false.
Proof.
  induction s as [|x s IH]; simpl; [discriminate | ].
  destruct (f x) eqn:Fx; [exact IH | ].
  intros E; inversion E; subst; exact Fx.
Qed.

Lemma dropwhile_fixed (f : char -> bool) (s : str) :
  match s with [] => True | c :: _ => f c = false end -> dropwhile f s = s.
Proof. destruct s as [|c s]; simpl; [reflexivity | intros ->; reflexivity]. Qed.

Lemma strip_idempotent (s : str) : strip (strip s) = strip s.
Proof.
  unfold strip.
  set (a := dropwhile is_space s).
  set (b := dropwhile is_space (rev a)).
  assert (Ha : match a with [] => True | c :: _ => is_space c = false end).
  { destruct a as [|c r] eqn:E; [exact I | ]. apply (dropwhile_head _ _ _ _ E). }
  assert (Hb : match b with [] => True | c :: _ => is_space c = false end).
  { destruct b as [|c r] eqn:E; [exact I | ]. apply (dropwhile_head _ _ _ _ E). }
  destruct (dropwhile_suffix is_space (rev a)) as [pre [E _]]. fold b in E.
  assert (Ea : a = rev b ++ rev pre).
  { rewrite <- (rev_involutive a), E, rev_app_distr. reflexivity. }
  assert (Hr : match rev b with [] => True | c :: _ => is_space c = false end).
  { destruct (rev b) as [|c r] eqn:Er; [exact I | ].
    rewrite Ea in Ha. exact Ha. }
  rewrite (dropwhile_fixed _ _ Hr), rev_involutive, (dropwhile_fixed _ _ Hb).
  reflexivity.
Qed.

Lemma normalize_name_some (v : value) (n : str) :
  normalize_name v = Some n <-> exists s, v = VStr s /\ strip s = n /\ n <> [].
Proof.
  destruct v as [| b | z | f | s | l | d]; simpl;
    try (split; [discriminate | intros [s [E _]]; discriminate]).
  destruct (strip s) as [|c r] eqn:E.
  - split; [discriminate | ]. intros [s' [Es [En Hn]]].
    inversion Es; subst s'. congruence.
  - split.
    + intros H; inversion H; subst. exists s. repeat split; [exact E | discriminate].
    + intros [s' [Es [En Hn]]]. inversion Es; subst s'. congruence.
Qed.

Lemma normalize_name_trimmed (v : value) (n : str) :
  normalize_name v = Some n -> strip n = n /\ n <> [].
Proof.
  intros H. apply normalize_name_some in H. destruct H as [s [_ [<- Hn]]].
  split; [apply strip_idempotent | exact Hn].
Qed.

Lemma normalize_name_fixed (n : str) :
  strip n = n -> n <> [] -> normalize_name (VStr n) = Some n.
Proof.
  intros E Hn. apply normalize_name_some. exists n. auto.
Qed.

Lemma re_sub_nondigit_digits (s : str) :
  forallb is_decimal (re_sub_nondigit s) = true.
Proof.
  apply forallb_forall. intros x Hx. apply filter_In in Hx. apply Hx.
Qed.

Lemma re_sub_nondigit_fixed (s : str) :
  forallb is_decimal s = true -> re_sub_nondigit s = s.
Proof.
  unfold re_sub_nondigit. induction s as [|c s IH]; simpl; [reflexivity | ].
  rewrite andb_true_iff. intros [-> H]. rewrite IH by exact H. reflexivity.
Qed.

Lemma normalize_phone_valid (v : value) (p : str) :
  normalize_phone v = Some p -> valid_phone p.
Proof.
  intros H.
  assert (R := normalize_phone_rule v). rewrite H in R.
  inversion R; subst; split; try assumption.
  - apply re_sub_nondigit_digits.
  - assert (D := re_sub_nondigit_digits s).
    match goal with E : re_sub_nondigit s = _ |- _ => rewrite E in D end.
    rewrite forallb_app in D. apply andb_true_iff in D. apply D.
  - assert (D := re_sub_nondigit_digits s).
    match goal with E : re_sub_nondigit s = _ |- _ => rewrite E in D end.
    rewrite forallb_app in D. apply andb_true_iff in D. apply D.
Qed.

Lemma normalize_phone_fixed (p : str) :
  valid_phone p -> normalize_phone (VStr p) = Some p.
Proof.
  intros [L D]. unfold normalize_phone.
  rewrite (re_sub_nondigit_fixed _ D), L. reflexivity.
Qed.

Lemma truthy_opt_name (v : value) :
  truthy_opt (normalize_name v) = true <-> exists n, normalize_name v = Some n.
Proof.
  split.
  - destruct (normalize_name v) as [[|c r]|]; simpl; try discriminate.
    intros _. eexists; reflexivity.
  - intros [n H]. destruct (normalize_name_trimmed _ _ H) as [_ Hn].
    rewrite H. destruct n; [congruence | reflexivity].
Qed.

Lemma truthy_opt_phone (v : value) :
  truthy_opt (normalize_phone v) = true <-> exists p, normalize_phone v = Some p.
Proof.
  split.
  - destruct (normalize_phone v) as [[|c r]|]; simpl; try discriminate.
    intros _. eexists; reflexivity.
  - intros [p H]. destruct (normalize_phone_valid _ _ H) as [L _].
    rewrite H. destruct p; [discriminate | reflexivity].
Qed.

End TextProofs.

(** ** The index *)

Section DictProofs.
Context {T : PyText}.

Lemma contains_key_true (d : odict) (k : str) :
  OrderedDict.contains_key d k = true <-> In k (OrderedDict.keys d).
Proof.
  unfold OrderedDict.contains_key, OrderedDict.keys.
  rewrite existsb_exists, in_map_iff. split.
  - intros [kv [H E]]. apply str_eqb_eq in E. exists kv; auto.
  - intros [kv [E H]]. exists kv. split; [exact H | apply str_eqb_eq; exact E].
Qed.

Lemma contains_key_false (d : odict) (k : str) :
  OrderedDict.contains_key d k = false <-> ~ In k (OrderedDict.keys d).
Proof.
  rewrite <- contains_key_true.
  destruct (OrderedDict.contains_key d k); split; congruence.
Qed.

Lemma setitem_absent (d : odict) (k : str) (v : contact) :
  OrderedDict.contains_key d k = false -> OrderedDict.setitem d k v = d ++ [(k, v)].
Proof.
  induction d as [|[k' v'] d IH]; simpl; [reflexivity | ].
  rewrite orb_false_iff. intros [-> H]. rewrite IH by exact H. reflexivity.
Qed.

Lemma without_cons (k k' : str) (v' : contact) (d : odict) :
  without k ((k', v') :: d) =
  if str_eqb k' k then without k d else (k', v') :: without k d.
Proof. unfold without. simpl. destruct (str_eqb k' k); reflexivity. Qed.

Lemma without_absent (k : str) (d : odict) :
  ~ In k (OrderedDict.keys d) -> without k d = d.
Proof.
  induction d as [|[k' v'] d IH]; [reflexivity | ].
  rewrite without_cons. simpl. intros H. destruct (str_eqb k' k) eqn:E.
  - apply str_eqb_eq in E. tauto.
  - rewrite IH by tauto. reflexivity.
Qed.

Lemma pop_without (d : odict) (k : str) :
  NoDup (OrderedDict.keys d) -> In k (OrderedDict.keys d) ->
  exists v, In (k, v) d /\ OrderedDict.pop d k = Some (v, without k d).
Proof.
  induction d as [|[k' v'] d IH]; [simpl; tauto | ].
  rewrite without_cons. simpl.
  intros N H. inversion N as [|? ? Hn N']; subst.
  destruct (str_eqb k' k) eqn:E.
  - apply str_eqb_eq in E; subst k'. exists v'. split; [left; reflexivity | ].
    rewrite without_absent by exact Hn. reflexivity.
  - destruct H as [H | H]; [apply str_eqb_neq in E; contradiction | ].
    destruct (IH N' H) as [v [Hv P]]. exists v. split; [right; exact Hv | ].
    rewrite P. reflexivity.
Qed.

Lemma contact_eqb_eq (c ct : contact) :
  str_eqb (name c) (name ct) && str_eqb (phone c) (phone ct) = true <-> c = ct.
Proof.
  rewrite andb_true_iff, !str_eqb_eq. destruct c, ct; simpl.
  split; [intros [-> ->]; reflexivity | intros E; inversion E; auto].
Qed.

Lemma nodup_keys_filter (f : str * contact -> bool) (d : odict) :
  NoDup (OrderedDict.keys d) -> NoDup (OrderedDict.keys (filter f d)).
Proof.
  induction d as [|kv d IH]; simpl; [auto | ].
  intros N. inversion N as [|? ? Hn N']; subst.
  destruct (f kv); simpl; [ | auto].
  constructor; [ | auto].
  intros H. apply Hn. unfold OrderedDict.keys in *.
  apply in_map_iff in H. destruct H as [x [E H]]. apply filter_In in H.
  apply in_map_iff. exists x. tauto.
Qed.

Lemma remove_first_values (d : odict) (k : str) (v : contact) :
  NoDup (OrderedDict.keys d) -> keyed d -> In (k, v) d ->
  remove_first_equal v (OrderedDict.values d) = OrderedDict.values (without k d).
Proof.
  induction d as [|[k' v'] d IH]; [simpl; tauto | ].
  rewrite without_cons. simpl.
  intros N K H. inversion N as [|? ? Hn N']; subst.
  apply Forall_cons_iff in K. destruct K as [Hk K']. simpl in Hk.
  assert (Kv : forall x, In (k, x) d -> In k (OrderedDict.keys d)).
  { intros x Hx. apply in_map_iff. exists (k, x). auto. }
  destruct (str_eqb (name v') (name v) && str_eqb (phone v') (phone v)) eqn:E.
  - apply contact_eqb_eq in E. subst v'.
    assert (Ek : k' = k).
    { destruct H as [H | H]; [congruence | ].
      rewrite Forall_forall in K'. assert (X := K' _ H). simpl in X. congruence. }
    rewrite Ek in *. rewrite str_eqb_refl.
    rewrite without_absent by exact Hn. reflexivity.
  - destruct H as [H | H].
    { inversion H; subst. rewrite (proj2 (contact_eqb_eq v v) eq_refl) in E.
      discriminate. }
    assert (k' <> k) by (intros ->; apply Hn; eapply Kv; eauto).
    rewrite (proj2 (str_eqb_neq k' k)) by assumption. simpl.
    f_equal. apply IH; auto.
Qed.

End DictProofs.

(** ** Loading *)

Section LoadProofs.
Context {T : PyText}.

Lemma dict_get_cases (d : list (str * value)) (k : str) :
  (forall default, dict_get d k default = default) \/
  (exists v, forall default, dict_get d k default = v).
Proof.
  induction d as [|[k' v'] d IH]; simpl.
  - left. reflexivity.
  - destruct (str_eqb k' k); [right; exists v'; reflexivity | exact IH].
Qed.

Lemma falsy_normalize_phone (v : value) :
  truthy v = false -> normalize_phone v = None.
Proof.
  destruct v as [| b | z | f | [|c s] | l | d]; simpl; try reflexivity.
  discriminate.
Qed.

Lemma load_entry_name (d : list (str * value)) :
  normalize_name (dict_get d (lit "name") (VStr (lit ""))) =
  normalize_name (dict_get d (lit "name") VNone).
Proof.
  destruct (dict_get_cases d (lit "name")) as [H | [v H]]; rewrite !H; reflexivity.
Qed.

Lemma load_entry_phone (d : list (str * value)) :
  (if truthy (dict_get d (lit "phone") VNone)
   then normalize_phone (dict_get d (lit "phone") (VStr (lit "")))
   else None) =
  normalize_phone (dict_get d (lit "phone") VNone).
Proof.
  destruct (dict_get_cases d (lit "phone")) as [H | [v H]]; rewrite !H.
  - reflexivity.
  - destruct (truthy v) eqn:E; [reflexivity | ].
    symmetry; apply falsy_normalize_phone; exact E.
Qed.

(** One turn of the loop of [load] never raises, and does what the
    specification says of the entry. *)
Lemma load_entry_spec (raw : value) (self : ContactManager) :
  load_entry raw self =
  (Return tt,
   match entry_record raw with
   | None => self
   | Some (k, c) =>
       if OrderedDict.contains_key (contacts self) k then self
       else Manager (OrderedDict.setitem (contacts self) k c)
                    (contacts_list self ++ [c])
   end).
Proof.
  destruct raw as [| b | z | f | s | l | d]; try reflexivity.
  unfold load_entry, entry_record.
  rewrite load_entry_name, load_entry_phone.
  assert (Hn : forall n, normalize_name (dict_get d (lit "name") VNone) = Some n ->
                         n <> []).
  { intros n En. apply (normalize_name_trimmed _ _ En). }
  assert (Hp : forall p, normalize_phone (dict_get d (lit "phone") VNone) = Some p ->
                         p <> []).
  { intros p Ep. destruct (normalize_phone_valid _ _ Ep) as [L _].
    intros ->; discriminate. }
  destruct (normalize_name (dict_get d (lit "name") VNone)) as [[|a n]|];
    try (exfalso; apply (Hn [] eq_refl); reflexivity);
    destruct (normalize_phone (dict_get d (lit "phone") VNone)) as [[|b p]|];
    try (exfalso; apply (Hp [] eq_refl); reflexivity);
    cbv [negb andb truthy_opt bind ret get_contacts or_empty method_lower];
    try reflexivity;
    match goal with
    | |- context [OrderedDict.contains_key ?d ?k] =>
        destruct (OrderedDict.contains_key d k); reflexivity
    end.
Qed.

Lemma values_app (d d' : odict) :
  OrderedDict.values (d ++ d') = OrderedDict.values d ++ OrderedDict.values d'.
Proof. apply map_app. Qed.

Lemma load_loop_spec (l : list value) (d : odict) :
  for_each l load_entry (Manager d (OrderedDict.values d)) =
  (Return tt,
   Manager (import_entries l d) (OrderedDict.values (import_entries l d))).
Proof.
  revert d; induction l as [|raw l IH]; intros d; [reflexivity | ].
  cbn [for_each import_entries]. unfold bind at 1. rewrite load_entry_spec.
  destruct (entry_record raw) as [[k c]|]; [ | apply IH].
  cbn [contacts contacts_list].
  destruct (OrderedDict.contains_key d k) eqn:E; [apply IH | ].
  rewrite setitem_absent by exact E.
  change [c] with (OrderedDict.values [(k, c)]). rewrite <- values_app.
  apply IH.
Qed.

(** [load] on each kind of read outcome. *)
Lemma load_spec (file : read_result) (self : ContactManager) :
  load file self =
  match file with
  | ReadRaises e =>
      if handles FileNotFoundError e || handles JSONDecodeError e
      then (Return tt, Manager [] [])
      else (Raise e, Manager [] [])
  | ReadData (VList l) =>
      (Return tt,
       Manager (import_entries l []) (OrderedDict.values (import_entries l [])))
  | ReadData _ => (Return tt, Manager [] [])
  end.
Proof.
  unfold load. cbv [bind set_contacts set_contacts_list]. cbn [contacts contacts_list].
  destruct file as [e | data].
  - destruct (handles FileNotFoundError e); [reflexivity | ].
    destruct (handles JSONDecodeError e); reflexivity.
  - destruct data; try reflexivity. apply (load_loop_spec l []).
Qed.

End LoadProofs.

(** ** The invariant *)

Section InvariantProofs.
Context {T : PyText}.

Lemma valid_phone_nonempty (p : str) : valid_phone p -> p <> [].
Proof. intros [L _] ->. discriminate. Qed.

Lemma key_of_derived (c : contact) :
  valid_contact c -> derived_key c = Some (key_of c).
Proof.
  intros [Hn Hp Hnp]. destruct c as [n p]. cbn [name phone] in *.
  unfold derived_key, _key_for_contact_fields, key_of. cbn [name phone].
  destruct Hp as [-> | Hp].
  - destruct Hnp as [Hnp | Hnp]; [ | congruence].
    cbn [truthy truthy_opt].
    rewrite (normalize_name_fixed _ Hn Hnp).
    destruct n as [|a n]; [congruence | reflexivity].
  - assert (Hne := valid_phone_nonempty _ Hp).
    rewrite (normalize_phone_fixed _ Hp).
    destruct p as [|b p]; [congruence | reflexivity].
Qed.

Lemma entry_record_valid (raw : value) (k : str) (c : contact) :
  entry_record raw = Some (k, c) -> valid_contact c /\ k = key_of c.
Proof.
  destruct raw as [| b | z | f | s | l | d]; try discriminate.
  unfold entry_record.
  destruct (normalize_name (dict_get d (lit "name") VNone)) as [n|] eqn:En;
    destruct (normalize_phone (dict_get d (lit "phone") VNone)) as [p|] eqn:Ep;
    intros E; inversion E; subst; clear E;
    try (destruct (normalize_name_trimmed _ _ En) as [Hs Hn]);
    try (assert (Hp := normalize_phone_valid _ _ Ep);
         assert (Hpn := valid_phone_nonempty _ Hp)).
  - split; [constructor; cbn [name phone]; auto | ].
    unfold key_of; cbn [phone]. destruct k; [congruence | reflexivity].
  - split; [constructor; cbn [name phone]; auto | reflexivity].
  - split; [constructor; cbn [name phone]; auto | ].
    unfold key_of; cbn [phone]. destruct k; [congruence | reflexivity].
Qed.

Lemma store_inv_shape (self : ContactManager) :
  store_inv self ->
  self = Manager (contacts self) (OrderedDict.values (contacts self)).
Proof. intros [_ _ L]. destruct self; cbn in *. rewrite L. reflexivity. Qed.

Lemma store_inv_empty : store_inv (Manager [] []).
Proof. constructor; cbn; [constructor | constructor | reflexivity]. Qed.

Lemma store_inv_append (d : odict) (c : contact) :
  store_inv (Manager d (OrderedDict.values d)) ->
  valid_contact c -> ~ In (key_of c) (OrderedDict.keys d) ->
  store_inv (Manager (d ++ [(key_of c, c)])
                     (OrderedDict.values (d ++ [(key_of c, c)]))).
Proof.
  intros [N V _] Hc Hk. cbn [contacts] in *. constructor; cbn [contacts contacts_list].
  - unfold OrderedDict.keys in *. rewrite map_app. cbn [map fst].
    apply NoDup_app; [exact N | repeat constructor; simpl; tauto | ].
    intros x Hx [<- | []]. exact (Hk Hx).
  - apply Forall_app. split; [exact V | ]. constructor; [ | constructor].
    split; [exact Hc | reflexivity].
  - reflexivity.
Qed.

Lemma store_inv_filter (f : str * contact -> bool) (d : odict) :
  store_inv (Manager d (OrderedDict.values d)) ->
  store_inv (Manager (filter f d) (OrderedDict.values (filter f d))).
Proof.
  intros [N V _]. cbn [contacts] in *. constructor; cbn [contacts contacts_list].
  - apply nodup_keys_filter; exact N.
  - rewrite Forall_forall in *. intros kv H. apply filter_In in H. apply V, H.
  - reflexivity.
Qed.

Lemma import_entries_inv (l : list value) (d : odict) :
  store_inv (Manager d (OrderedDict.values d)) ->
  store_inv (Manager (import_entries l d) (OrderedDict.values (import_entries l d))).
Proof.
  revert d; induction l as [|raw l IH]; intros d H; [exact H | ].
  cbn [import_entries].
  destruct (entry_record raw) as [[k c]|] eqn:E; [ | apply IH; exact H].
  destruct (OrderedDict.contains_key d k) eqn:K; [apply IH; exact H | ].
  destruct (entry_record_valid _ _ _ E) as [Hc ->].
  apply IH, store_inv_append; [exact H | exact Hc | ].
  apply contains_key_false; exact K.
Qed.

Lemma load_inv (file : read_result) (self : ContactManager) :
  store_inv (snd (load file self)).
Proof.
  rewrite load_spec. destruct file as [e | data].
  - destruct (handles FileNotFoundError e || handles JSONDecodeError e);
      apply store_inv_empty.
  - destruct data; try apply store_inv_empty.
    apply import_entries_inv, store_inv_empty.
Qed.

Lemma add_contact_spec (nm ph : value) (self : ContactManager) :
  add_contact nm ph self =
  match normalize_name nm with
  | None => (Raise (Exn ValueError "Name is required."), self)
  | Some n =>
      match normalize_phone ph with
      | None =>
          (Raise (Exn ValueError
             "Phone is invalid. Provide a valid 10-digit number (country code allowed)."),
           self)
      | Some p =>
          if OrderedDict.contains_key (contacts self) p
          then (Raise (Exn ValueError "Phone already exists."), self)
          else (Return (Contact n p),
                Manager (contacts self ++ [(p, Contact n p)])
                        (contacts_list self ++ [Contact n p]))
      end
  end.
Proof.
  unfold add_contact.
  destruct (normalize_name nm) as [n|] eqn:En; [ | reflexivity].
  destruct (normalize_name_trimmed _ _ En) as [_ Hn].
  destruct n as [|a n]; [congruence | ]. cbn [truthy_opt negb].
  destruct (normalize_phone ph) as [p|] eqn:Ep; [ | reflexivity].
  assert (Hp := valid_phone_nonempty _ (normalize_phone_valid _ _ Ep)).
  destruct p as [|b p]; [congruence | ]. cbn [truthy_opt negb or_empty].
  cbv [bind get_contacts ret raise set_contacts set_contacts_list get_contacts_list].
  cbn [contacts contacts_list].
  destruct (OrderedDict.contains_key (contacts self) (b :: p)) eqn:K; [reflexivity | ].
  rewrite setitem_absent by exact K. reflexivity.
Qed.

Lemma add_contact_inv (nm ph : value) (self : ContactManager) :
  store_inv self -> store_inv (snd (add_contact nm ph self)).
Proof.
  intros H. rewrite add_contact_spec.
  destruct (normalize_name nm) as [n|] eqn:En; [ | exact H].
  destruct (normalize_phone ph) as [p|] eqn:Ep; [ | exact H].
  destruct (OrderedDict.contains_key (contacts self) p) eqn:K; [exact H | ].
  cbn [snd].
  destruct (normalize_name_trimmed _ _ En) as [Hs Hn].
  assert (Hp := normalize_phone_valid _ _ Ep).
  assert (Hpn := valid_phone_nonempty _ Hp).
  assert (Ek : key_of (Contact n p) = p).
  { unfold key_of; cbn [phone]. destruct p; [congruence | reflexivity]. }
  assert (Hc : valid_contact (Contact n p))
    by (constructor; cbn [name phone]; auto).
  rewrite (inv_list _ H).
  change [Contact n p] with (OrderedDict.values [(p, Contact n p)]).
  rewrite <- values_app.
  set (c := Contact n p) in *. rewrite <- Ek.
  apply store_inv_append.
  - rewrite <- (store_inv_shape _ H). exact H.
  - exact Hc.
  - rewrite Ek. apply contains_key_false; exact K.
Qed.

End InvariantProofs.

(** ** Deleting *)

Section DeleteProofs.
Context {T : PyText}.

Lemma unique_value (d : odict) (k : str) (v v' : contact) :
  NoDup (OrderedDict.keys d) -> In (k, v) d -> In (k, v') d -> v = v'.
Proof.
  induction d as [|[k0 v0] d IH]; simpl; [tauto | ].
  intros N H H'. inversion N as [|? ? Hn N']; subst.
  assert (Kv : forall x, In (k, x) d -> In k (OrderedDict.keys d)).
  { intros x Hx. apply in_map_iff. exists (k, x). auto. }
  destruct H as [H | H]; destruct H' as [H' | H'].
  - congruence.
  - inversion H; subst. exfalso; eauto.
  - inversion H'; subst. exfalso; eauto.
  - eauto.
Qed.

Lemma filter_filter_in {A : Type} (f g h : A -> bool) (l : list A) :
  (forall x, In x l -> h x = g x && f x) ->
  filter f (filter g l) = filter h l.
Proof.
  induction l as [|x l IH]; simpl; [reflexivity | ].
  intros H. rewrite (H x) by auto.
  destruct (g x); simpl; [destruct (f x) | ]; rewrite IH by auto; reflexivity.
Qed.

Lemma keyed_filter (f : str * contact -> bool) (d : odict) :
  keyed d -> keyed (filter f d).
Proof.
  unfold keyed. rewrite !Forall_forall. intros H kv Hkv.
  apply filter_In in Hkv. apply H, Hkv.
Qed.

Lemma contacts_pop_spec (d : odict) (l : list contact) (k : str) (v : contact) :
  NoDup (OrderedDict.keys d) -> In (k, v) d ->
  contacts_pop k (Manager d l) = (Return v, Manager (without k d) l).
Proof.
  intros N H.
  assert (Hk : In k (OrderedDict.keys d))
    by (apply in_map_iff; exists (k, v); auto).
  destruct (pop_without _ _ N Hk) as [v' [Hv' P]].
  rewrite (unique_value _ _ _ _ N H Hv').
  cbv [contacts_pop bind get_contacts set_contacts ret]. cbn [contacts contacts_list].
  rewrite P. reflexivity.
Qed.

Lemma delete_by_name_spec (target : str) (its d : odict) (flag : bool) :
  NoDup (OrderedDict.keys d) -> keyed d ->
  NoDup (OrderedDict.keys its) -> incl its d ->
  let hit := fun kv : str * contact => str_eqb (lower (name (snd kv))) target in
  let d' := filter (fun kv => negb (hit kv && OrderedDict.contains_key its (fst kv))) d in
  delete_by_name its target flag (Manager d (OrderedDict.values d)) =
  (Return (flag || existsb hit its), Manager d' (OrderedDict.values d')).
Proof.
  intros N K Ni I hit. revert d flag N K I.
  induction its as [|[k v] its IH]; intros d flag N K I; cbv zeta.
  - cbn [delete_by_name existsb]. rewrite orb_false_r.
    rewrite (filter_ext_in _ (fun _ => true)); [rewrite filter_true; reflexivity | ].
    intros kv _. unfold OrderedDict.contains_key. cbn [existsb].
    rewrite andb_false_r. reflexivity.
  - inversion Ni as [|? ? Hk Ni']; subst.
    assert (Hin : In (k, v) d) by (apply I; left; reflexivity).
    assert (I' : incl its d) by (intros x Hx; apply I; right; exact Hx).
    (* the two predicates agree on the entries of [d] *)
    assert (Split : forall kv, In kv d ->
      negb (hit kv && OrderedDict.contains_key ((k, v) :: its) (fst kv)) =
      negb (hit (k, v) && str_eqb (fst kv) k) &&
      negb (hit kv && OrderedDict.contains_key its (fst kv))).
    { intros [k1 v1] H1. unfold OrderedDict.contains_key. cbn [existsb fst].
      destruct (str_eqb k k1) eqn:E.
      - apply str_eqb_eq in E. subst k1. rewrite (unique_value _ _ _ _ N H1 Hin).
        rewrite str_eqb_refl. cbn [orb]. rewrite !andb_true_r.
        destruct (hit (k, v)); reflexivity.
      - assert (str_eqb k1 k = false) as ->.
        { apply str_eqb_neq. apply str_eqb_neq in E. congruence. }
        cbn [orb]. rewrite andb_false_r. reflexivity. }
    cbn [delete_by_name existsb].
    change (str_eqb (lower (name v)) target) with (hit (k, v)).
    destruct (hit (k, v)) eqn:Hv.
    + unfold bind at 1.
      change (bind (contacts_pop k) (fun ct => _remove_from_list ct ;; delete_by_name its target true))
        with (bind (contacts_pop k) (fun ct => bind (_remove_from_list ct) (fun _ => delete_by_name its target true))).
      rewrite (contacts_pop_spec _ _ _ _ N Hin).
      unfold bind at 1.
      cbv [_remove_from_list bind get_contacts_list set_contacts_list].
      cbn [contacts contacts_list].
      rewrite (remove_first_values _ _ _ N K Hin).
      rewrite IH; [ | exact Ni' | apply nodup_keys_filter; exact N
                    | apply keyed_filter; exact K | ].
      * rewrite orb_true_r. cbn [orb]. unfold without.
        rewrite (filter_filter_in _ _
                   (fun kv => negb (hit kv && OrderedDict.contains_key ((k, v) :: its) (fst kv)))).
        { reflexivity. }
        intros kv Hkv. rewrite (Split kv Hkv). cbn [andb]. reflexivity.
      * intros [k1 v1] H1. apply filter_In. split; [apply I'; exact H1 | ].
        cbn [fst]. apply negb_true_iff, str_eqb_neq. intros ->.
        apply Hk. apply in_map_iff. exists (k, v1). auto.
    + rewrite IH; [ | exact Ni' | exact N | exact K | exact I'].
      cbn [orb]. f_equal. f_equal.
      * apply filter_ext_in. intros kv Hkv. rewrite (Split kv Hkv). reflexivity.
      * f_equal. apply filter_ext_in. intros kv Hkv. rewrite (Split kv Hkv). reflexivity.
Qed.

End DeleteProofs.

Section DeleteSpec.
Context {T : PyText}.

Lemma in_keys (d : odict) (k : str) (v : contact) :
  In (k, v) d -> In k (OrderedDict.keys d).
Proof. intros H. apply in_map_iff. exists (k, v). auto. Qed.

Lemma delete_by_name_all (s : str) (self : ContactManager) :
  store_inv self ->
  delete_by_name (OrderedDict.items (contacts self)) (lower (strip s)) false self =
  delete_named s self.
Proof.
  intros H. destruct H as [N V L].
  assert (K : keyed (contacts self)).
  { unfold keyed. rewrite Forall_forall in *. intros kv Hkv. apply V, Hkv. }
  destruct self as [d l]. cbn [contacts contacts_list] in *. subst l.
  unfold OrderedDict.items.
  rewrite (delete_by_name_spec (lower (strip s)) d d false N K N (incl_refl d)).
  unfold delete_named. cbn [contacts contacts_list orb].
  assert (E : filter
      (fun kv => negb (str_eqb (lower (name (snd kv))) (lower (strip s))
                       && OrderedDict.contains_key d (fst kv))) d =
    filter (fun kv => negb (name_matches s (snd kv))) d).
  { apply filter_ext_in. intros [k v] Hkv. cbn [fst snd].
    rewrite (proj2 (contains_key_true d k) (in_keys _ _ _ Hkv)).
    rewrite andb_true_r. reflexivity. }
  rewrite E. f_equal. f_equal.
  unfold OrderedDict.values. clear. induction d as [|[k v] d IH]; [reflexivity | ].
  cbn [existsb map snd]. rewrite IH. reflexivity.
Qed.

Lemma delete_spec (s : str) (self : ContactManager) :
  store_inv self ->
  delete (VStr s) self =
  match strip s with
  | [] => (Return false, self)
  | _ :: _ =>
      match normalize_phone (VStr s) with
      | Some k =>
          if OrderedDict.contains_key (contacts self) k
          then (Return true,
                Manager (without k (contacts self))
                        (OrderedDict.values (without k (contacts self))))
          else delete_named s self
      | None => delete_named s self
      end
  end.
Proof.
  intros H. unfold delete.
  destruct (strip s) as [|a r] eqn:Es; [reflexivity | ]. rewrite <- Es.
  unfold bind at 1. cbv [get_contacts].
  destruct (normalize_phone (VStr s)) as [k|] eqn:Ek.
  - assert (Hk := valid_phone_nonempty _ (normalize_phone_valid _ _ Ek)).
    destruct k as [|b k]; [congruence | ]. cbn [truthy_opt or_empty andb].
    destruct (OrderedDict.contains_key (contacts self) (b :: k)) eqn:C.
    + apply contains_key_true in C.
      destruct H as [N V L].
      assert (K : keyed (contacts self)).
      { unfold keyed. rewrite Forall_forall in *. intros kv Hkv. apply V, Hkv. }
      destruct (pop_without _ _ N C) as [v [Hv _]].
      destruct self as [d l]. cbn [contacts contacts_list] in *. subst l.
      change (bind (contacts_pop (b :: k)) (fun ct => _remove_from_list ct ;; ret true))
        with (bind (contacts_pop (b :: k))
                   (fun ct => bind (_remove_from_list ct) (fun _ => ret true))).
      unfold bind at 1. rewrite (contacts_pop_spec _ _ _ _ N Hv).
      cbv [_remove_from_list bind get_contacts_list set_contacts_list ret].
      cbn [contacts contacts_list].
      rewrite (remove_first_values _ _ _ N K Hv). reflexivity.
    + apply delete_by_name_all; exact H.
  - cbn [truthy_opt andb]. apply delete_by_name_all; exact H.
Qed.

Lemma delete_inv (x : value) (self : ContactManager) :
  store_inv self -> store_inv (snd (delete x self)).
Proof.
  intros H. destruct x as [| b | z | f | s | l | d]; try exact H.
  rewrite (delete_spec s self H).
  assert (F : forall f, store_inv (Manager (filter f (contacts self))
                                    (OrderedDict.values (filter f (contacts self))))).
  { intros f. apply store_inv_filter. rewrite <- (store_inv_shape _ H). exact H. }
  destruct (strip s); [exact H | ].
  destruct (normalize_phone (VStr s)) as [k|]; [ | apply F].
  destruct (OrderedDict.contains_key (contacts self) k); apply F.
Qed.

(** Every state of a manager satisfies the invariant. *)
Lemma reachable_inv (self : ContactManager) : reachable self -> store_inv self.
Proof.
  induction 1 as [file self E | c self R IH].
  - unfold __init__ in E. assert (I := load_inv file (Manager [] [])).
    destruct (load file (Manager [] [])) as [[u | e] m]; [ | discriminate].
    inversion E; subst. exact I.
  - destruct c; cbn [run_call]; try exact IH.
    + apply add_contact_inv; exact IH.
    + unfold search. destruct query; try exact IH.
      destruct (lower (strip s)); exact IH.
    + apply delete_inv; exact IH.
    + apply load_inv.
    + unfold save. destruct env; try exact IH.
      destruct (forallb contact_encodable (contacts_list self)); exact IH.
Qed.

End DeleteSpec.

(* ------------------------------------------------------------------ *)
(** * The claims *)

(** ** add *)

Section AddClaim.
Context {T : PyText}.

Lemma normalize_name_none (nm : value) :
  (forall s, nm = VStr s -> strip s = []) -> normalize_name nm = None.
Proof.
  intros H. destruct (normalize_name nm) as [n|] eqn:E; [ | reflexivity].
  apply normalize_name_some in E. destruct E as [s [Es [En Hn]]].
  rewrite (H s Es) in En. congruence.
Qed.

(** C2, as the program has it. [add_contact] raises [ValueError] with the
    message "Name is required." when the name does not normalize (it is
    not a string, or is empty once trimmed), [ValueError] with the message
    "Phone is invalid. ..." when the phone does not normalize, and
    [ValueError] with the message "Phone already exists." when the
    normalized phone is already a key of the index: the three failures
    are of one exception class and differ by their message.  In each of
    them the manager is left exactly as it was.  Otherwise the record of
    the trimmed name and the normalized phone is appended to the index and
    to the ordered list, and returned. *)
Theorem add_contact_outcome (nm ph : value) (self : ContactManager) :
  ((forall s, nm = VStr s -> strip s = []) ->
   add_contact nm ph self = (Raise (Exn ValueError "Name is required."), self)) /\
  (forall n, normalize_name nm = Some n -> normalize_phone ph = None ->
   add_contact nm ph self =
   (Raise (Exn ValueError
      "Phone is invalid. Provide a valid 10-digit number (country code allowed)."),
    self)) /\
  (forall n p, normalize_name nm = Some n -> normalize_phone ph = Some p ->
   In p (OrderedDict.keys (contacts self)) ->
   add_contact nm ph self = (Raise (Exn ValueError "Phone already exists."), self)) /\
  (forall n p, normalize_name nm = Some n -> normalize_phone ph = Some p ->
   ~ In p (OrderedDict.keys (contacts self)) ->
   add_contact nm ph self =
   (Return (Contact n p),
    Manager (contacts self ++ [(p, Contact n p)])
            (contacts_list self ++ [Contact n p]))).
Proof.
  rewrite add_contact_spec. split; [ | split; [ | split]].
  - intros H. rewrite (normalize_name_none nm H). reflexivity.
  - intros n -> ->. reflexivity.
  - intros n p -> -> H. apply contains_key_true in H. rewrite H. reflexivity.
  - intros n p -> -> H. apply contains_key_false in H. rewrite H. reflexivity.
Qed.

End AddClaim.

(** A manager built on a missing file, and the same after
    [add_contact("Kamal", "98765-43210")]. *)
Lemma add_contact_outcome_witness :
  let nm := VStr (lit "Kamal") in
  let ph := VStr (lit "98765-43210") in
  let c := Contact (lit "Kamal") (lit "9876543210") in
  let one := Manager [(lit "9876543210", c)] [c] in
  add_contact (T := ascii_text) nm ph (Manager [] []) = (Return c, one) /\
  add_contact (T := ascii_text) nm ph one =
    (Raise (Exn ValueError "Phone already exists."), one) /\
  add_contact (T := ascii_text) nm (VStr (lit "123")) one =
    (Raise (Exn ValueError
       "Phone is invalid. Provide a valid 10-digit number (country code allowed)."),
     one) /\
  add_contact (T := ascii_text) (VStr (lit "  ")) ph one =
    (Raise (Exn ValueError "Name is required."), one).
Proof.
  intros nm ph c one. split; [ | split; [ | split]].
  - apply (proj2 (proj2 (proj2
      (add_contact_outcome (T := ascii_text) nm ph (Manager [] []))))
      (lit "Kamal") (lit "9876543210")); [reflexivity | reflexivity | ].
    simpl. tauto.
  - apply (proj1 (proj2 (proj2
      (add_contact_outcome (T := ascii_text) nm ph one)))
      (lit "Kamal") (lit "9876543210")); [reflexivity | reflexivity | ].
    simpl. left. reflexivity.
  - apply (proj1 (proj2
      (add_contact_outcome (T := ascii_text) nm (VStr (lit "123")) one))
      (lit "Kamal")); reflexivity.
  - apply (proj1 (add_contact_outcome (T := ascii_text) (VStr (lit "  ")) ph one)).
    intros s E. inversion E. reflexivity.
Defined.

(** C2 as the specification words it names two error kinds,
    [ValidationError] and a distinct [DuplicateError].  The program has
    one: adding a blank name and adding a phone that is already stored
    raise exceptions of the same class. *)
Lemma add_contact_errors_same_kind :
  let ph := VStr (lit "98765-43210") in
  let stored := snd (add_contact (T := ascii_text) (VStr (lit "Kamal")) ph
                                 (Manager [] [])) in
  exists invalid duplicate,
    fst (add_contact (T := ascii_text) (VStr (lit "  ")) ph stored) = Raise invalid /\
    fst (add_contact (T := ascii_text) (VStr (lit "Kamal")) ph stored) = Raise duplicate /\
    exn_msg invalid <> exn_msg duplicate /\
    exn_kind invalid = exn_kind duplicate.
Proof.
  intros ph stored.
  exists (Exn ValueError "Name is required."), (Exn ValueError "Phone already exists.").
  split; [reflexivity | split; [reflexivity | split; [discriminate | reflexivity]]].
Qed.

(** ** delete *)

Section DeleteClaim.
Context {T : PyText}.

Lemma without_split (d : odict) (k : str) :
  NoDup (OrderedDict.keys d) -> In k (OrderedDict.keys d) ->
  exists d1 c d2, d = d1 ++ (k, c) :: d2 /\ without k d = d1 ++ d2.
Proof.
  induction d as [|[k' v'] d IH]; [simpl; tauto | ].
  rewrite without_cons. simpl. intros N H. inversion N as [|? ? Hn N']; subst.
  destruct (str_eqb k' k) eqn:E.
  - apply str_eqb_eq in E. subst k'. exists [], v', d.
    rewrite without_absent by exact Hn. split; reflexivity.
  - destruct H as [H | H]; [apply str_eqb_neq in E; contradiction | ].
    destruct (IH N' H) as [d1 [c [d2 [E1 E2]]]].
    exists ((k', v') :: d1), c, d2. rewrite E1 at 1. rewrite E2. split; reflexivity.
Qed.

Lemma values_filter (f : contact -> bool) (d : odict) :
  OrderedDict.values (filter (fun kv => f (snd kv)) d) = filter f (OrderedDict.values d).
Proof.
  unfold OrderedDict.values. induction d as [|[k v] d IH]; [reflexivity | ].
  simpl. destruct (f v); simpl; rewrite IH; reflexivity.
Qed.

Lemma filter_out_length {A : Type} (m : A -> bool) (l : list A) :
  length (filter (fun x => negb (m x)) l) <= length l /\
  (existsb m l = true <-> length (filter (fun x => negb (m x)) l) < length l).
Proof.
  induction l as [|x l [IH1 IH2]]; simpl.
  - split; [lia | split; [discriminate | lia]].
  - destruct (m x); simpl.
    + split; [lia | split; [lia | reflexivity]].
    + split; [lia | rewrite IH2; lia].
Qed.

(** C3, as the program has it.  On a string identifier [delete] never
    raises, and its result is true exactly when the list of records got
    shorter.  A blank identifier removes nothing.  An identifier that
    normalizes to a key present in the index removes exactly the one
    record stored under that key.  Any other identifier, including one
    that normalizes to a phone that is not a key, is taken as a name: every
    record whose name is the trimmed identifier, letter case apart, is
    removed, however many there are. *)
Theorem delete_outcome (s : str) (self : ContactManager) :
  reachable self ->
  exists b self',
    delete (VStr s) self = (Return b, self') /\
    (b = true <-> length (contacts_list self') < length (contacts_list self)) /\
    (strip s = [] -> self' = self) /\
    (forall k, strip s <> [] -> normalize_phone (VStr s) = Some k ->
       In k (OrderedDict.keys (contacts self)) ->
       exists l1 c l2,
         contacts_list self = l1 ++ c :: l2 /\
         contacts_list self' = l1 ++ l2 /\
         derived_key c = Some k) /\
    (strip s <> [] ->
     (forall k, normalize_phone (VStr s) = Some k ->
                ~ In k (OrderedDict.keys (contacts self))) ->
     contacts_list self' =
     filter (fun c => negb (name_matches s c)) (contacts_list self)).
Proof.
  intros R. assert (H := reachable_inv self R).
  rewrite (delete_spec s self H).
  destruct (strip s) as [|a r] eqn:Es.
  { exists false, self. split; [reflexivity | ].
    split; [split; [discriminate | lia] | ].
    split; [reflexivity | ]. split; [intros k N; congruence | intros N; congruence]. }
  assert (Named :
    (forall k, normalize_phone (VStr s) = Some k ->
               ~ In k (OrderedDict.keys (contacts self))) ->
    exists b self', delete_named s self = (Return b, self') /\
      (b = true <-> length (contacts_list self') < length (contacts_list self)) /\
      (a :: r = [] -> self' = self) /\
      (forall k, a :: r <> [] -> normalize_phone (VStr s) = Some k ->
         In k (OrderedDict.keys (contacts self)) ->
         exists l1 c l2,
           contacts_list self = l1 ++ c :: l2 /\
           contacts_list self' = l1 ++ l2 /\
           derived_key c = Some k) /\
      (a :: r <> [] ->
       (forall k, normalize_phone (VStr s) = Some k ->
                  ~ In k (OrderedDict.keys (contacts self))) ->
       contacts_list self' =
       filter (fun c => negb (name_matches s c)) (contacts_list self))).
  { intros Absent. eexists; eexists. split; [reflexivity | ]. cbn [contacts_list].
    rewrite (values_filter (fun c => negb (name_matches s c))), <- (inv_list _ H).
    split; [apply filter_out_length | ].
    split; [discriminate | ].
    split; [ | intros _ _; reflexivity].
    intros k _ Ek Hk. destruct (Absent k Ek Hk). }
  destruct (normalize_phone (VStr s)) as [k|] eqn:Ek;
    [ | apply Named; intros k; discriminate].
  destruct (OrderedDict.contains_key (contacts self) k) eqn:C.
  - apply contains_key_true in C.
    destruct (without_split _ _ (inv_keys _ H) C) as [d1 [c [d2 [E1 E2]]]].
    eexists; eexists. split; [reflexivity | ]. cbn [contacts_list].
    rewrite E2, (inv_list _ H), E1, !values_app. cbn [OrderedDict.values map snd].
    unfold OrderedDict.values.
    split; [rewrite !length_app; simpl; split; [lia | reflexivity] | ].
    split; [discriminate | ].
    split.
    + intros k' _ Ek' _. inversion Ek'; subst k'.
      exists (map snd d1), c, (map snd d2).
      split; [reflexivity | split; [reflexivity | ]].
      assert (V := inv_valid _ H). rewrite Forall_forall in V.
      destruct (V (k, c)) as [Vc Kc].
      { rewrite E1. apply in_or_app. right. left. reflexivity. }
      cbn [fst snd] in *. rewrite Kc. apply key_of_derived; exact Vc.
    + intros _ Absent. rewrite E1 in C. destruct (Absent k eq_refl C).
  - apply contains_key_false in C. apply Named.
    intros k' Ek'. inversion Ek'; subst k'. exact C.
Qed.

End DeleteClaim.

Lemma reachable_empty {T : PyText} : reachable (Manager [] []).
Proof.
  apply (reach_init (ReadRaises (Exn FileNotFoundError "No such file or directory"))).
  reflexivity.
Qed.

Lemma delete_outcome_witness :
  let m := run_call (T := ascii_text)
             (CallAdd (VStr (lit "Kamal")) (VStr (lit "98765-43210")))
             (Manager [] []) in
  reachable (T := ascii_text) m /\
  exists b self',
    delete (T := ascii_text) (VStr (lit " KAMAL ")) m = (Return b, self') /\
    (b = true <-> length (contacts_list self') < length (contacts_list m)).
Proof.
  intros m.
  assert (R : reachable (T := ascii_text) m)
    by (apply reach_call, reachable_empty).
  split; [exact R | ].
  destruct (delete_outcome (T := ascii_text) (lit " KAMAL ") m R)
    as [b [self' [E [L _]]]].
  exists b, self'. split; [exact E | exact L].
Defined.

(** C3 as the specification words it says that [delete] called with a
    phone removes at most one record.  Two contacts may carry the same
    name, and that name may read as a phone number that is nobody's key:
    the fallback by name then removes both. *)
Lemma delete_phone_argument_removes_two :
  let nm := VStr (lit "9876543210") in
  let m := run_call (T := ascii_text) (CallAdd nm (VStr (lit "2222222222")))
             (run_call (T := ascii_text) (CallAdd nm (VStr (lit "1111111111")))
                (Manager [] [])) in
  reachable (T := ascii_text) m /\
  normalize_phone (T := ascii_text) nm = Some (lit "9876543210") /\
  length (contacts_list m) = 2 /\
  delete (T := ascii_text) nm m = (Return true, Manager [] []).
Proof.
  intros nm m. split; [ | split; [ | split]]; try reflexivity.
  apply reach_call, reach_call, reachable_empty.
Qed.

(** ** load *)

Section LoadClaim.
Context {T : PyText}.

(** C4, as the program has it.  [load] empties the store and then: a
    missing file ([FileNotFoundError]) and a file that is not JSON
    ([JSONDecodeError]) leave it empty, without an error; any other
    exception raised while the file is opened and read is not caught and
    leaves [load] with the store empty; a decoded value that is not a list
    leaves the store empty; a list is imported entry by entry, in order,
    skipping the entries that are not objects, those whose name and phone
    both fail to normalize, and those whose derived key is already loaded,
    so that the first occurrence of a key wins. *)
Theorem load_outcome (file : read_result) (self : ContactManager) :
  (forall e, file = ReadRaises e ->
     exn_kind e = FileNotFoundError \/ exn_kind e = JSONDecodeError ->
     load file self = (Return tt, Manager [] [])) /\
  (forall e, file = ReadRaises e ->
     exn_kind e <> FileNotFoundError -> exn_kind e <> JSONDecodeError ->
     load file self = (Raise e, Manager [] [])) /\
  (forall data, file = ReadData data -> (forall l, data <> VList l) ->
     load file self = (Return tt, Manager [] [])) /\
  (forall l, file = ReadData (VList l) ->
     load file self =
     (Return tt,
      Manager (import_entries l []) (OrderedDict.values (import_entries l [])))).
Proof.
  rewrite load_spec. split; [ | split; [ | split]].
  - intros e -> [K | K]; unfold handles; rewrite K; reflexivity.
  - intros e -> N1 N2. unfold handles.
    destruct (exn_kind e); try reflexivity; congruence.
  - intros data -> N. destruct data; try reflexivity. destruct (N l eq_refl).
  - intros l ->. reflexivity.
Qed.

End LoadClaim.

Lemma load_outcome_witness :
  let entry := fun n p => VDict [(lit "name", VStr (lit n)); (lit "phone", VStr (lit p))] in
  let data := VList [entry "Kamal" "98765-43210"; VInt 7; entry "" "12";
                     entry "Other" "09876543210"; entry "kkg1" "none"] in
  load (T := ascii_text) (ReadData data) (Manager [] []) =
    (Return tt,
     Manager [(lit "9876543210", Contact (lit "Kamal") (lit "9876543210"));
              (lit "kkg1", Contact (lit "kkg1") [])]
             [Contact (lit "Kamal") (lit "9876543210"); Contact (lit "kkg1") []]) /\
  load (T := ascii_text) (ReadRaises (Exn JSONDecodeError "Expecting value"))
       (Manager [] []) = (Return tt, Manager [] []) /\
  load (T := ascii_text) (ReadRaises (Exn PermissionError "Permission denied"))
       (Manager [] []) = (Raise (Exn PermissionError "Permission denied"), Manager [] []) /\
  load (T := ascii_text) (ReadData (VDict [])) (Manager [] []) =
    (Return tt, Manager [] []).
Proof.
  intros entry data. split; [ | split; [ | split]].
  - apply (proj2 (proj2 (proj2
      (load_outcome (T := ascii_text) (ReadData data) (Manager [] []))))
      _ eq_refl).
  - apply (proj1 (load_outcome (T := ascii_text)
      (ReadRaises (Exn JSONDecodeError "Expecting value")) (Manager [] []))
      _ eq_refl).
    right; reflexivity.
  - apply (proj1 (proj2 (load_outcome (T := ascii_text)
      (ReadRaises (Exn PermissionError "Permission denied")) (Manager [] [])))
      _ eq_refl); discriminate.
  - apply (proj1 (proj2 (proj2 (load_outcome (T := ascii_text)
      (ReadData (VDict [])) (Manager [] []))))
      _ eq_refl). discriminate.
Defined.

(** C4 as the specification words it says that [load] never raises.  A
    file whose bytes are not UTF-8 makes [json.load] raise
    [UnicodeDecodeError], which neither handler of [load] catches. *)
Lemma load_raises_on_undecodable_file :
  let e := Exn UnicodeDecodeError
             "'utf-8' codec can't decode byte 0xff in position 0: invalid start byte" in
  load (T := ascii_text) (ReadRaises e) (Manager [] []) = (Raise e, Manager [] []).
Proof. reflexivity. Qed.

(** ** save, then load *)

Section RoundTrip.
Context {T : PyText}.

Lemma normalize_phone_nil : normalize_phone (VStr []) = None.
Proof. reflexivity. Qed.

Lemma entry_record_contact (c : contact) :
  valid_contact c -> entry_record (contact_value c) = Some (key_of c, c).
Proof.
  intros [Hn Hp Hnp]. destruct c as [n p]. cbn [name phone] in *.
  unfold entry_record, contact_value, key_of. cbn [name phone].
  change (dict_get _ (lit "name") VNone) with (VStr n).
  change (dict_get _ (lit "phone") VNone) with (VStr p).
  destruct Hp as [-> | Hp].
  - destruct Hnp as [Hnp | Hnp]; [ | congruence].
    rewrite (normalize_name_fixed _ Hn Hnp), normalize_phone_nil. reflexivity.
  - assert (Hne := valid_phone_nonempty _ Hp).
    rewrite (normalize_phone_fixed _ Hp).
    destruct p as [|b p]; [congruence | ].
    destruct n as [|a n].
    + reflexivity.
    + rewrite (normalize_name_fixed _ Hn) by discriminate. reflexivity.
Qed.

Lemma import_saved (d d0 : odict) :
  NoDup (OrderedDict.keys (d0 ++ d)) ->
  Forall (fun kv => valid_contact (snd kv) /\ fst kv = key_of (snd kv)) d ->
  import_entries (map contact_value (OrderedDict.values d)) d0 = d0 ++ d.
Proof.
  revert d0; induction d as [|[k c] d IH]; intros d0 N V.
  - simpl. rewrite app_nil_r. reflexivity.
  - apply Forall_cons_iff in V. destruct V as [[Vc Kc] V]. cbn [fst snd] in *.
    cbn [OrderedDict.values map snd import_entries].
    rewrite (entry_record_contact c Vc), <- Kc.
    assert (A : OrderedDict.contains_key d0 k = false).
    { apply contains_key_false. intros Hk.
      unfold OrderedDict.keys in N. rewrite map_app in N. cbn [map fst] in N.
      apply NoDup_remove_2 in N. apply N, in_or_app. left. exact Hk. }
    rewrite A. fold (OrderedDict.values d).
    rewrite IH.
    + rewrite <- app_assoc. reflexivity.
    + rewrite <- app_assoc. exact N.
    + exact V.
Qed.

Lemma save_returns (env : write_env) (self : ContactManager) :
  fst (fst (save env self)) = Return tt <->
  env = Writes /\ forallb contact_encodable (contacts_list self) = true.
Proof.
  unfold save. destruct env as [e | e | ]; cbn [fst].
  - split; [discriminate | intros [E _]; discriminate].
  - split; [discriminate | intros [E _]; discriminate].
  - destruct (forallb contact_encodable (contacts_list self)); cbn [fst].
    + split; [split; reflexivity | reflexivity].
    + split; [discriminate | intros [_ E]; discriminate].
Qed.

(** C5, as the program has it.  [save] returns exactly when the file can
    be opened and written and every stored name and phone can be encoded
    in UTF-8; it raises otherwise.  In every state of a manager all the
    entries are valid, and whenever [save] returns, the file holds the
    list, and [load] of it gives back the same store: the same index and
    the same ordered list, hence the same records as an unordered
    collection of name and phone pairs. *)
Theorem save_load_roundtrip (env : write_env) (self : ContactManager) :
  reachable self ->
  (fst (fst (save env self)) = Return tt <->
   env = Writes /\ forallb contact_encodable (contacts_list self) = true) /\
  Forall valid_contact (contacts_list self) /\
  (fst (fst (save env self)) = Return tt ->
   exists v,
     save env self = ((Return tt, self), FileReads (ReadData v)) /\
     load (ReadData v) self = (Return tt, self) /\
     Permutation (contacts_list (snd (load (ReadData v) self))) (contacts_list self)).
Proof.
  intros R. assert (H := reachable_inv self R).
  assert (E : load (ReadData (VList (map contact_value (contacts_list self)))) self =
              (Return tt, self)).
  { rewrite load_spec, (inv_list _ H).
    rewrite (import_saved (contacts self) [] (inv_keys _ H) (inv_valid _ H)).
    cbn [app]. rewrite <- (inv_list _ H). destruct self; reflexivity. }
  split; [apply save_returns | split].
  - rewrite (inv_list _ H). assert (V := inv_valid _ H).
    unfold OrderedDict.values. rewrite Forall_forall in *.
    intros c Hc. apply in_map_iff in Hc. destruct Hc as [kv [<- Hkv]].
    apply (V kv Hkv).
  - intros S. apply save_returns in S. destruct S as [-> S].
    exists (VList (map contact_value (contacts_list self))).
    split; [unfold save; rewrite S; reflexivity | ].
    split; [exact E | ].
    rewrite E. apply Permutation_refl.
Qed.

End RoundTrip.

Lemma save_load_roundtrip_witness :
  let m := run_call (T := ascii_text)
             (CallLoad (ReadData (VList
                [VDict [(lit "name", VStr (lit "A")); (lit "phone", VStr (lit "123"))];
                 VDict [(lit "name", VStr (lit "B")); (lit "phone", VStr (lit "12345 12345"))]])))
             (run_call (T := ascii_text)
                (CallAdd (VStr (lit "Kamal")) (VStr (lit "98765-43210")))
                (Manager [] [])) in
  reachable (T := ascii_text) m /\
  fst (fst (save Writes m)) = Return tt /\
  length (contacts_list m) = 2 /\
  exists v,
    save Writes m = ((Return tt, m), FileReads (ReadData v)) /\
    load (T := ascii_text) (ReadData v) m = (Return tt, m).
Proof.
  intros m.
  assert (R : reachable (T := ascii_text) m)
    by (apply reach_call, reach_call, reachable_empty).
  assert (S : fst (fst (save Writes m)) = Return tt) by reflexivity.
  split; [exact R | split; [exact S | split; [reflexivity | ]]].
  destruct (proj2 (proj2 (save_load_roundtrip (T := ascii_text) Writes m R)) S)
    as [v [Sv [L _]]].
  exists v. split; [exact Sv | exact L].
Defined.

(** C5 as the specification words it promises the round trip for every
    store without invalid entries.  A name may hold a lone surrogate:
    [add_contact] stores it, the entry is valid, and [save] then raises
    [UnicodeEncodeError] with the file already truncated; the [load] that
    follows finds no JSON in it and leaves the store empty. *)
Lemma save_fails_on_surrogate_name :
  let m := run_call (T := ascii_text)
             (CallAdd (VStr [55296%N]) (VStr (lit "98765-43210")))
             (Manager [] []) in
  reachable (T := ascii_text) m /\
  contacts_list m = [Contact [55296%N] (lit "9876543210")] /\
  Forall (valid_contact (T := ascii_text)) (contacts_list m) /\
  exists e after,
    save Writes m = ((Raise e, m), FileReads after) /\
    exn_kind e = UnicodeEncodeError /\
    load (T := ascii_text) after m = (Return tt, Manager [] []).
Proof.
  intros m. split; [apply reach_call, reachable_empty | ].
  split; [reflexivity | ]. split.
  - constructor; [ | constructor]. constructor; cbn [name phone].
    + reflexivity.
    + right. split; reflexivity.
    + left. discriminate.
  - eexists; eexists. split; [reflexivity | ]. split; reflexivity.
Qed.

(** ** search *)

Section SearchClaim.
Context {T : PyText}.

Lemma dropwhile_all (f : char -> bool) (s : str) :
  forallb f s = true -> dropwhile f s = [].
Proof.
  induction s as [|c s IH]; simpl; [reflexivity | ].
  rewrite andb_true_iff. intros [-> H]. apply IH; exact H.
Qed.

Lemma strip_blank (s : str) : forallb is_space s = true -> strip s = [].
Proof. intros H. unfold strip. rewrite (dropwhile_all _ _ H). reflexivity. Qed.

(** C6, as the program has it.  [search] leaves the store as it is and
    yields, in the order of the list, exactly the records whose lowercased
    name contains the trimmed, lowercased query or whose phone contains
    that same string (the query itself, not its digits); a query that is
    empty or all whitespace yields nothing. *)
Theorem search_outcome (s : str) (self : ContactManager) :
  exists l,
    search (VStr s) self = (Return l, self) /\
    (forallb is_space s = true -> l = []) /\
    exists f,
      l = filter f (contacts_list self) /\
      forall c, f c = true <->
                lower (strip s) <> [] /\
                (substring (lower (strip s)) (lower (name c)) \/
                 substring (lower (strip s)) (phone c)).
Proof.
  unfold search. destruct (lower (strip s)) as [|a q] eqn:Eq.
  - exists []. split; [reflexivity | ]. split; [reflexivity | ].
    exists (fun _ => false). split.
    + induction (contacts_list self); [reflexivity | assumption].
    + intros c. split; [discriminate | intros [N _]; congruence].
  - eexists. split; [reflexivity | ]. split.
    + intros B. rewrite (strip_blank s B) in Eq.
      rewrite (proj2 (lower_empty []) eq_refl) in Eq. discriminate.
    + eexists. split; [reflexivity | ].
      intros c. cbv beta. rewrite orb_true_iff, !contains_spec. unfold substring.
      split; [intros H; split; [discriminate | exact H] | intros [_ H]; exact H].
Qed.

End SearchClaim.

Lemma search_outcome_witness :
  let c := Contact (lit "Kamal") (lit "9876543210") in
  let m := Manager [(lit "9876543210", c)] [c] in
  forallb (is_space (PyText := ascii_text)) (lit "  ") = true /\
  exists l, search (T := ascii_text) (VStr (lit "  ")) m = (Return l, m) /\ l = [].
Proof.
  intros c m. split; [reflexivity | ].
  destruct (search_outcome (T := ascii_text) (lit "  ") m) as [l [E [B _]]].
  exists l. split; [exact E | apply B; reflexivity].
Defined.

(** C6 as the specification words it matches the phone against the digits
    of the query.  With Kamal stored under 9876543210, the query
    "98765-43210" has those very digits, yet [search] yields nothing: the
    phone does not contain the query as it is written. *)
Lemma search_ignores_query_digits :
  let m := run_call (T := ascii_text)
             (CallAdd (VStr (lit "Kamal")) (VStr (lit "98765-43210")))
             (Manager [] []) in
  let q := lit "98765-43210" in
  reachable (T := ascii_text) m /\
  search (T := ascii_text) (VStr q) m = (Return [], m) /\
  filter (claimed_search_match (T := ascii_text) q) (contacts_list m) =
    [Contact (lit "Kamal") (lit "9876543210")].
Proof.
  intros m q. split; [apply reach_call, reachable_empty | ].
  split; reflexivity.
Qed.

(** ** add, then search *)

Section AddSearchClaim.
Context {T : PyText}.

(** C7, as the program has it.  After a successful [add_contact(name,
    phone)], [search(name)] yields what it yielded before the call,
    followed by the added record, whose name is the trimmed [name]: the
    added record is always found, and it is the only one exactly when no
    record stored earlier matches the name. *)
Theorem add_then_search (nm ph : value) (self self' : ContactManager) (c : contact) :
  add_contact nm ph self = (Return c, self') ->
  exists s before,
    nm = VStr s /\ name c = strip s /\
    search nm self = (Return before, self) /\
    search nm self' = (Return (before ++ [c]), self').
Proof.
  rewrite add_contact_spec.
  destruct (normalize_name nm) as [n|] eqn:En; [ | discriminate].
  destruct (normalize_phone ph) as [p|]; [ | discriminate].
  destruct (OrderedDict.contains_key (contacts self) p); [discriminate | ].
  intros E. inversion E; subst c self'; clear E.
  apply normalize_name_some in En. destruct En as [s [-> [Es Hn]]].
  exists s. unfold search. rewrite Es.
  destruct (lower n) as [|a q] eqn:Eq.
  { apply (proj1 (lower_empty n)) in Eq. congruence. }
  eexists. split; [reflexivity | ]. split; [reflexivity | ].
  split; [reflexivity | ].
  cbv [bind get_contacts_list ret]. cbn [contacts_list].
  rewrite filter_app. cbn [filter name phone]. rewrite Eq, contains_refl.
  reflexivity.
Qed.

End AddSearchClaim.

Lemma add_then_search_witness :
  let c := Contact (lit "Kamal") (lit "9876543210") in
  let m' := Manager [(lit "9876543210", c)] [c] in
  add_contact (T := ascii_text) (VStr (lit " Kamal ")) (VStr (lit "98765-43210"))
              (Manager [] []) = (Return c, m') /\
  exists s before,
    VStr (lit " Kamal ") = VStr s /\ name c = strip (T := ascii_text) s /\
    search (T := ascii_text) (VStr (lit " Kamal ")) (Manager [] []) =
      (Return before, Manager [] []) /\
    search (T := ascii_text) (VStr (lit " Kamal ")) m' = (Return (before ++ [c]), m').
Proof.
  intros c m'. split; [reflexivity | ].
  apply (add_then_search (T := ascii_text) (VStr (lit " Kamal "))
           (VStr (lit "98765-43210")) (Manager [] []) m' c).
  reflexivity.
Defined.

(** C7 as the specification words it promises exactly one record.  With
    "Kamal Gupta" already stored, adding "Kamal" and searching for "Kamal"
    yields both. *)
Lemma add_then_search_finds_two :
  let m := run_call (T := ascii_text)
             (CallAdd (VStr (lit "Kamal Gupta")) (VStr (lit "98765-43211")))
             (Manager [] []) in
  let old := Contact (lit "Kamal Gupta") (lit "9876543211") in
  let new := Contact (lit "Kamal") (lit "9876543210") in
  reachable (T := ascii_text) m /\
  exists m',
    add_contact (T := ascii_text) (VStr (lit "Kamal")) (VStr (lit "98765-43210")) m =
      (Return new, m') /\
    search (T := ascii_text) (VStr (lit "Kamal")) m' = (Return [old; new], m').
Proof.
  intros m old new. split; [apply reach_call, reachable_empty | ].
  exists (Manager [(lit "9876543211", old); (lit "9876543210", new)] [old; new]).
  split; reflexivity.
Qed.

(** ** A loading scenario *)

Section ScenarioClaim.
Context {T : PyText}.

Lemma short_phone_invalid (s : str) :
  length s < 10 -> normalize_phone (VStr s) = None.
Proof.
  intros L.
  apply (phone_rule_functional _ _ _ (normalize_phone_rule (VStr s))).
  assert (length (re_sub_nondigit s) <= length s) by apply filter_length_le.
  apply rule_otherwise; lia.
Qed.

(** C8. Loading the list [[{"name": "A", "phone": "123"}]] leaves one
    record, with the name "A" and an empty phone, filed under the
    lowercased name ("A" not being a space character). *)
Theorem load_scenario (self : ContactManager) :
  is_space 65%N = false ->
  load (ReadData (VList
          [VDict [(lit "name", VStr (lit "A")); (lit "phone", VStr (lit "123"))]]))
       self =
  (Return tt,
   Manager [(lower (lit "A"), Contact (lit "A") (lit ""))]
           [Contact (lit "A") (lit "")]).
Proof.
  intros A. rewrite load_spec. cbn [import_entries].
  unfold entry_record.
  change (dict_get _ (lit "name") VNone) with (VStr (lit "A")).
  change (dict_get _ (lit "phone") VNone) with (VStr (lit "123")).
  rewrite (short_phone_invalid (lit "123")) by (cbv; lia).
  assert (N : normalize_name (VStr (lit "A")) = Some (lit "A")).
  { unfold normalize_name, strip. change (lit "A") with [65%N].
    cbn [dropwhile]. rewrite A. cbn [rev app dropwhile]. rewrite A. reflexivity. }
  rewrite N. reflexivity.
Qed.

End ScenarioClaim.

Lemma load_scenario_witness :
  is_space (PyText := ascii_text) 65%N = false /\
  load (T := ascii_text)
       (ReadData (VList
          [VDict [(lit "name", VStr (lit "A")); (lit "phone", VStr (lit "123"))]]))
       (Manager [] []) =
  (Return tt,
   Manager [(lit "a", Contact (lit "A") (lit ""))] [Contact (lit "A") (lit "")]).
Proof.
  split; [reflexivity | ].
  apply (load_scenario (T := ascii_text) (Manager [] [])). reflexivity.
Defined.

(** ** The two invariants *)

Section InvariantClaims.
Context {T : PyText}.

Lemma derived_keys_of_index (d : odict) :
  Forall (fun kv => valid_contact (snd kv) /\ fst kv = key_of (snd kv)) d ->
  map derived_key (OrderedDict.values d) = map Some (OrderedDict.keys d).
Proof.
  induction 1 as [|[k c] d [Vc Kc] _ IH]; [reflexivity | ].
  cbn [OrderedDict.values OrderedDict.keys map fst snd] in *.
  rewrite (key_of_derived c Vc), <- Kc. f_equal. exact IH.
Qed.

(** C9. In every state of a manager, each stored record has a derived
    key, which is the key it is indexed under, and no two stored records
    have the same derived key. *)
Theorem derived_keys_unique (self : ContactManager) :
  reachable self ->
  map derived_key (contacts_list self) = map Some (OrderedDict.keys (contacts self)) /\
  NoDup (map derived_key (contacts_list self)).
Proof.
  intros R. assert (H := reachable_inv self R).
  assert (E := derived_keys_of_index (contacts self) (inv_valid _ H)).
  rewrite (inv_list _ H), E. split; [reflexivity | ].
  apply Finite.Injective_map_NoDup; [ | exact (inv_keys _ H)].
  intros a b Eab. inversion Eab. reflexivity.
Qed.

(** C10. In every state of a manager, the ordered list is the sequence
    of the records held in the index, in the order of the index: the two
    hold the same records, each the same number of times. *)
Theorem list_matches_index (self : ContactManager) :
  reachable self ->
  contacts_list self = OrderedDict.values (contacts self) /\
  Permutation (contacts_list self) (OrderedDict.values (contacts self)).
Proof.
  intros R. assert (H := reachable_inv self R).
  rewrite (inv_list _ H). split; [reflexivity | apply Permutation_refl].
Qed.

End InvariantClaims.

Lemma derived_keys_unique_witness :
  let m := run_call (T := ascii_text) (CallDelete (VStr (lit "kkg1")))
             (run_call (T := ascii_text)
                (CallAdd (VStr (lit "Kamal")) (VStr (lit "98765-43211")))
                (run_call (T := ascii_text)
                   (CallAdd (VStr (lit "kkg1")) (VStr (lit "91 98765-43212")))
                   (run_call (T := ascii_text)
                      (CallLoad (ReadData (VList
                         [VDict [(lit "name", VStr (lit "Kamal")); (lit "phone", VStr (lit "123"))];
                          VDict [(lit "name", VStr (lit " KAMAL ")); (lit "phone", VStr (lit ""))];
                          VDict [(lit "name", VStr (lit "Kamal"));
                                 (lit "phone", VStr (lit "098765 43210"))]])))
                      (Manager [] [])))) in
  reachable (T := ascii_text) m /\
  contacts_list m =
    [Contact (lit "Kamal") (lit ""); Contact (lit "Kamal") (lit "9876543210");
     Contact (lit "Kamal") (lit "9876543211")] /\
  map (derived_key (T := ascii_text)) (contacts_list m) =
    [Some (lit "kamal"); Some (lit "9876543210"); Some (lit "9876543211")] /\
  NoDup (map (derived_key (T := ascii_text)) (contacts_list m)).
Proof.
  intros m.
  assert (R : reachable (T := ascii_text) m)
    by (apply reach_call, reach_call, reach_call, reach_call, reachable_empty).
  split; [exact R | split; [reflexivity | split; [reflexivity | ]]].
  apply (proj2 (derived_keys_unique (T := ascii_text) m R)).
Defined.

Lemma list_matches_index_witness :
  let m := run_call (T := ascii_text) (CallDelete (VStr (lit "kkg1")))
             (run_call (T := ascii_text)
                (CallAdd (VStr (lit "Kamal")) (VStr (lit "98765-43210")))
                (run_call (T := ascii_text)
                   (CallAdd (VStr (lit "kkg1")) (VStr (lit "98765-43211")))
                   (Manager [] []))) in
  reachable (T := ascii_text) m /\
  contacts_list m = OrderedDict.values (contacts m).
Proof.
  intros m.
  assert (R : reachable (T := ascii_text) m)
    by (apply reach_call, reach_call, reach_call, reachable_empty).
  split; [exact R | ].
  apply (proj1 (list_matches_index (T := ascii_text) m R)).
Defined.

(* ------------------------------------------------------------------ *)
(** * Further properties of the program *)

(** ** The two normalizers *)

Section NormalizerFacts.
Context {T : PyText}.

(** A normalized phone is ten digits, and normalizing it again gives it
    back. *)
Theorem normalize_phone_idempotent (v : value) (p : str) :
  normalize_phone v = Some p ->
  length p = 10 /\ forallb is_decimal p = true /\
  normalize_phone (VStr p) = Some p.
Proof.
  intros H. assert (V := normalize_phone_valid _ _ H).
  destruct V as [L D]. split; [exact L | split; [exact D | ]].
  apply normalize_phone_fixed. split; assumption.
Qed.

(** Characters that are not digits, wherever they stand in the input, do
    not change the normalized phone. *)
Theorem normalize_phone_ignores_separators (a sep b : str) :
  forallb (fun c => negb (is_decimal c)) sep = true ->
  normalize_phone (VStr (a ++ sep ++ b)) = normalize_phone (VStr (a ++ b)).
Proof.
  intros H.
  assert (E : re_sub_nondigit (a ++ sep ++ b) = re_sub_nondigit (a ++ b)).
  { unfold re_sub_nondigit. rewrite !filter_app.
    assert (N : filter is_decimal sep = []).
    { induction sep as [|c sep IH]; [reflexivity | ].
      simpl in H. apply andb_true_iff in H. destruct H as [Hc H].
      simpl. apply negb_true_iff in Hc. rewrite Hc. apply IH; exact H. }
    rewrite N. reflexivity. }
  unfold normalize_phone. rewrite E. reflexivity.
Qed.

Lemma strip_ends (s : str) (c : char) (r : str) :
  strip s = c :: r ->
  is_space c = false /\ is_space (last (c :: r) c) = false.
Proof.
  unfold strip. intros E.
  set (a := dropwhile is_space s) in *.
  set (b := dropwhile is_space (rev a)) in *.
  destruct (dropwhile_suffix is_space (rev a)) as [pre [Ea _]]. fold b in Ea.
  assert (Ha : a = rev b ++ rev pre).
  { rewrite <- (rev_involutive a), Ea, rev_app_distr. reflexivity. }
  split.
  - rewrite E in Ha. simpl in Ha.
    apply (dropwhile_head is_space s c (r ++ rev pre)). exact Ha.
  - destruct b as [|x b'] eqn:Eb; [discriminate | ].
    simpl in E. rewrite <- E, last_last.
    apply (dropwhile_head is_space (rev a) x b'). exact Eb.
Qed.

(** A normalized name is not empty, neither starts nor ends with a
    whitespace character, and normalizing it again gives it back. *)
Theorem normalize_name_trims (v : value) (n : str) :
  normalize_name v = Some n ->
  exists c r, n = c :: r /\
    is_space c = false /\ is_space (last n c) = false /\
    normalize_name (VStr n) = Some n.
Proof.
  intros H. destruct (normalize_name_trimmed _ _ H) as [Hs Hn].
  destruct n as [|c r]; [congruence | ].
  exists c, r. split; [reflexivity | ].
  destruct (strip_ends _ _ _ Hs) as [A B].
  split; [exact A | split; [exact B | ]].
  apply normalize_name_fixed; [exact Hs | discriminate].
Qed.

Lemma dropwhile_app (f : char -> bool) (s t : str) :
  dropwhile f (s ++ t) =
  if forallb f s then dropwhile f t else dropwhile f s ++ t.
Proof.
  induction s as [|c s IH]; simpl; [reflexivity | ].
  destruct (f c); simpl; [exact IH | reflexivity].
Qed.

Lemma forallb_rev (f : char -> bool) (s : str) :
  forallb f (rev s) = forallb f s.
Proof.
  induction s as [|c s IH]; simpl; [reflexivity | ].
  rewrite forallb_app, IH. simpl. rewrite andb_true_r. apply andb_comm.
Qed.

Lemma strip_padding (ws s ws' : str) :
  forallb is_space ws = true -> forallb is_space ws' = true ->
  strip (ws ++ s ++ ws') = strip s.
Proof.
  intros W W'. unfold strip.
  rewrite dropwhile_app, W, dropwhile_app.
  destruct (forallb is_space s) eqn:S.
  - rewrite (dropwhile_all _ _ W'), (dropwhile_all _ _ S). reflexivity.
  - rewrite rev_app_distr, dropwhile_app, forallb_rev, W'. reflexivity.
Qed.

(** Whitespace around a name or a query never matters: [normalize_name],
    [add_contact] and [search] do the same on a string and on that string
    with whitespace added before and after it. *)
Theorem surrounding_whitespace_ignored (ws s ws' : str) :
  forallb is_space ws = true -> forallb is_space ws' = true ->
  normalize_name (VStr (ws ++ s ++ ws')) = normalize_name (VStr s) /\
  (forall ph self,
     add_contact (VStr (ws ++ s ++ ws')) ph self = add_contact (VStr s) ph self) /\
  (forall self, search (VStr (ws ++ s ++ ws')) self = search (VStr s) self).
Proof.
  intros W W'. assert (E := strip_padding ws s ws' W W').
  assert (N : normalize_name (VStr (ws ++ s ++ ws')) = normalize_name (VStr s))
    by (unfold normalize_name; rewrite E; reflexivity).
  split; [exact N | split].
  - intros ph self. unfold add_contact. rewrite N. reflexivity.
  - intros self. unfold search. rewrite E. reflexivity.
Qed.

End NormalizerFacts.

Lemma normalize_phone_idempotent_witness :
  normalize_phone (T := ascii_text) (VStr (lit "+91 98765-43210")) =
    Some (lit "9876543210") /\
  normalize_phone (T := ascii_text) (VStr (lit "9876543210")) =
    Some (lit "9876543210").
Proof.
  split; [reflexivity | ].
  apply (normalize_phone_idempotent (T := ascii_text)
           (VStr (lit "+91 98765-43210")) (lit "9876543210")).
  reflexivity.
Defined.

Lemma normalize_phone_ignores_separators_witness :
  forallb (fun c => negb (is_decimal (PyText := ascii_text) c)) (lit "-") = true /\
  normalize_phone (T := ascii_text) (VStr (lit "98765" ++ lit "-" ++ lit "43210")) =
  normalize_phone (T := ascii_text) (VStr (lit "98765" ++ lit "43210")).
Proof.
  split; [reflexivity | ].
  apply (normalize_phone_ignores_separators (T := ascii_text)). reflexivity.
Defined.

Lemma normalize_name_trims_witness :
  normalize_name (T := ascii_text) (VStr (lit "  Kamal Gupta ")) =
    Some (lit "Kamal Gupta") /\
  exists c r, lit "Kamal Gupta" = c :: r /\
    is_space (PyText := ascii_text) c = false /\
    is_space (PyText := ascii_text) (last (lit "Kamal Gupta") c) = false /\
    normalize_name (T := ascii_text) (VStr (lit "Kamal Gupta")) =
      Some (lit "Kamal Gupta").
Proof.
  split; [reflexivity | ].
  apply (normalize_name_trims (T := ascii_text) (VStr (lit "  Kamal Gupta "))).
  reflexivity.
Defined.

Lemma surrounding_whitespace_ignored_witness :
  forallb (is_space (PyText := ascii_text)) (lit "  ") = true /\
  forallb (is_space (PyText := ascii_text)) (lit " ") = true /\
  normalize_name (T := ascii_text) (VStr (lit "  " ++ lit "Kamal" ++ lit " ")) =
  normalize_name (T := ascii_text) (VStr (lit "Kamal")).
Proof.
  split; [reflexivity | split; [reflexivity | ]].
  apply (proj1 (surrounding_whitespace_ignored (T := ascii_text)
                  (lit "  ") (lit "Kamal") (lit " ") eq_refl eq_refl)).
Defined.

(** ** Keys *)

Section KeyFacts.
Context {T : PyText}.

Lemma falsy_normalize_name (v : value) :
  truthy v = false -> normalize_name v = None.
Proof.
  destruct v as [| b | z | f | [|c s] | l | d]; simpl; try reflexivity.
  discriminate.
Qed.

Lemma key_for_fields_spec (nmv phv : value) :
  _key_for_contact_fields nmv phv =
  match normalize_phone phv with
  | Some p => Some p
  | None => option_map lower (normalize_name nmv)
  end.
Proof.
  unfold _key_for_contact_fields.
  assert (P : (if truthy phv then normalize_phone phv else None) = normalize_phone phv).
  { destruct (truthy phv) eqn:E; [reflexivity | ].
    symmetry; apply falsy_normalize_phone; exact E. }
  assert (N : (if truthy nmv then normalize_name nmv else None) = normalize_name nmv).
  { destruct (truthy nmv) eqn:E; [reflexivity | ].
    symmetry; apply falsy_normalize_name; exact E. }
  rewrite P, N.
  destruct (normalize_phone phv) as [p|] eqn:Ep.
  - assert (Hp := valid_phone_nonempty _ (normalize_phone_valid _ _ Ep)).
    destruct p; [congruence | reflexivity].
  - cbn [truthy_opt].
    destruct (normalize_name nmv) as [n|] eqn:En; [ | reflexivity].
    destruct (normalize_name_trimmed _ _ En) as [_ Hn].
    destruct n; [congruence | reflexivity].
Qed.

(** The contact a successful [add_contact] returns has a name that is not
    empty and a phone of ten digits, and it sits in the index under its
    phone, which is the key [_key_for_contact_fields] gives for the
    arguments of the call. *)
Theorem add_contact_result (nm ph : value) (self self' : ContactManager)
    (c : contact) :
  add_contact nm ph self = (Return c, self') ->
  name c <> [] /\
  length (phone c) = 10 /\ forallb is_decimal (phone c) = true /\
  _key_for_contact_fields nm ph = Some (phone c) /\
  In (phone c, c) (contacts self').
Proof.
  rewrite add_contact_spec, key_for_fields_spec.
  destruct (normalize_name nm) as [n|] eqn:En; [ | discriminate].
  destruct (normalize_phone ph) as [p|] eqn:Ep; [ | discriminate].
  destruct (OrderedDict.contains_key (contacts self) p); [discriminate | ].
  intros E. inversion E; subst c self'; clear E. cbn [name phone contacts].
  destruct (normalize_name_trimmed _ _ En) as [_ Hn].
  destruct (normalize_phone_valid _ _ Ep) as [L D].
  split; [exact Hn | split; [exact L | split; [exact D | split; [reflexivity | ]]]].
  apply in_or_app. right. left. reflexivity.
Qed.

(** One turn of the loop of [load] on an object files the entry under the
    key that [_key_for_contact_fields] gives for its "name" and "phone"
    fields: no key, or a key already in the index, leaves the store as it
    is; a new key is appended to the index with one record, which also
    goes last in the list. *)
Theorem load_entry_key (d : list (str * value)) (self : ContactManager) :
  match _key_for_contact_fields (dict_get d (lit "name") VNone)
                                (dict_get d (lit "phone") VNone) with
  | None => load_entry (VDict d) self = (Return tt, self)
  | Some k =>
      if OrderedDict.contains_key (contacts self) k
      then load_entry (VDict d) self = (Return tt, self)
      else exists c,
        load_entry (VDict d) self =
        (Return tt, Manager (contacts self ++ [(k, c)]) (contacts_list self ++ [c]))
  end.
Proof.
  rewrite key_for_fields_spec, load_entry_spec. unfold entry_record.
  destruct (normalize_phone (dict_get d (lit "phone") VNone)) as [p|];
    destruct (normalize_name (dict_get d (lit "name") VNone)) as [n|];
    cbn [option_map]; try reflexivity;
    match goal with
    | |- context [OrderedDict.contains_key ?m ?k] =>
        destruct (OrderedDict.contains_key m k) eqn:K; [reflexivity | ];
        eexists; rewrite setitem_absent by exact K; reflexivity
    end.
Qed.

End KeyFacts.

Lemma add_contact_result_witness :
  let c := Contact (lit "Kamal") (lit "9876543210") in
  add_contact (T := ascii_text) (VStr (lit "Kamal")) (VStr (lit "098765 43210"))
              (Manager [] []) =
    (Return c, Manager [(lit "9876543210", c)] [c]) /\
  _key_for_contact_fields (T := ascii_text)
    (VStr (lit "Kamal")) (VStr (lit "098765 43210")) = Some (lit "9876543210").
Proof.
  intros c. split; [reflexivity | ].
  apply (add_contact_result (T := ascii_text)
           (VStr (lit "Kamal")) (VStr (lit "098765 43210"))
           (Manager [] []) (Manager [(lit "9876543210", c)] [c]) c eq_refl).
Defined.

(** ** What a manager holds *)

Section StoreFacts.
Context {T : PyText}.

Lemma nodup_values (d : odict) :
  NoDup (OrderedDict.keys d) -> keyed d -> NoDup (OrderedDict.values d).
Proof.
  induction d as [|[k c] d IH]; intros N K; [constructor | ].
  inversion N as [|? ? Hn N']; subst.
  apply Forall_cons_iff in K. destruct K as [Hk K]. cbn [fst snd] in Hk.
  cbn [OrderedDict.values map snd]. constructor; [ | apply IH; assumption].
  intros Hc. apply in_map_iff in Hc. destruct Hc as [[k' c'] [E H']].
  cbn [snd] in E. subst c'. apply Hn.
  rewrite Forall_forall in K. assert (X := K _ H'). cbn [fst snd] in X.
  apply in_map_iff. exists (k', c). split; [cbn [fst]; congruence | exact H'].
Qed.

Lemma inv_keyed (self : ContactManager) : store_inv self -> keyed (contacts self).
Proof.
  intros H. assert (V := inv_valid _ H). unfold keyed.
  rewrite Forall_forall in *. intros kv Hkv. apply (V kv Hkv).
Qed.

(** In every state of a manager, [view_contacts] leaves the store as it
    is and yields the records of the list, among which no record occurs
    twice. *)
Theorem view_contacts_distinct (self : ContactManager) :
  reachable self ->
  view_contacts self = (Return (contacts_list self), self) /\
  NoDup (contacts_list self).
Proof.
  intros R. assert (H := reachable_inv self R).
  split; [reflexivity | ].
  rewrite (inv_list _ H).
  apply nodup_values; [exact (inv_keys _ H) | exact (inv_keyed _ H)].
Qed.

Lemma phones_of_index (d : odict) :
  Forall (fun kv => valid_contact (snd kv) /\ fst kv = key_of (snd kv)) d ->
  forall p, In p (map phone (filter has_phone (OrderedDict.values d))) ->
            In p (OrderedDict.keys d).
Proof.
  intros V p Hp. apply in_map_iff in Hp. destruct Hp as [c [E Hc]].
  apply filter_In in Hc. destruct Hc as [Hc F].
  apply in_map_iff in Hc. destruct Hc as [[k c'] [E' Hkv]]. cbn [snd] in E'. subst c'.
  rewrite Forall_forall in V. destruct (V _ Hkv) as [_ Kc]. cbn [fst snd] in Kc.
  apply in_map_iff. exists (k, c). split; [ | exact Hkv]. cbn [fst].
  rewrite Kc. unfold key_of. unfold has_phone in F.
  destruct (phone c); [discriminate | exact E].
Qed.

(** In every state of a manager, no two records that have a phone have
    the same phone. *)
Theorem phones_unique (self : ContactManager) :
  reachable self ->
  NoDup (map phone (filter has_phone (contacts_list self))).
Proof.
  intros R. assert (H := reachable_inv self R).
  rewrite (inv_list _ H). assert (N := inv_keys _ H). assert (V := inv_valid _ H).
  induction (contacts self) as [|[k c] d IH]; [constructor | ].
  inversion N as [|? ? Hn N']; subst.
  apply Forall_cons_iff in V. destruct V as [[_ Kc] V]. cbn [fst snd] in Kc.
  cbn [OrderedDict.values map snd filter].
  fold (OrderedDict.values d).
  destruct (has_phone c) eqn:F; [ | apply IH; assumption].
  cbn [map]. constructor; [ | apply IH; assumption].
  intros Hp. apply Hn. apply (phones_of_index d V) in Hp.
  rewrite Kc. unfold key_of. unfold has_phone in F.
  destruct (phone c); [discriminate | exact Hp].
Qed.

(** After a successful [add_contact], any further [add_contact] whose
    phone normalizes to the same ten digits fails with [ValueError] and
    leaves the store as it is; with a name that normalizes, the message
    is "Phone already exists.". *)
Theorem add_contact_twice (nm ph nm' ph' : value) (self self' : ContactManager)
    (c : contact) :
  add_contact nm ph self = (Return c, self') ->
  normalize_phone ph' = normalize_phone ph ->
  exists e,
    add_contact nm' ph' self' = (Raise e, self') /\
    exn_kind e = ValueError /\
    (normalize_name nm' <> None -> exn_msg e = "Phone already exists.").
Proof.
  rewrite !add_contact_spec. intros E P. rewrite P.
  destruct (normalize_name nm) as [n|]; [ | discriminate].
  destruct (normalize_phone ph) as [p|]; [ | discriminate].
  destruct (OrderedDict.contains_key (contacts self) p); [discriminate | ].
  inversion E; subst c self'; clear E. cbn [contacts].
  assert (K : OrderedDict.contains_key (contacts self ++ [(p, Contact n p)]) p = true).
  { apply contains_key_true. unfold OrderedDict.keys. rewrite map_app.
    apply in_or_app. right. left. reflexivity. }
  rewrite K.
  destruct (normalize_name nm') as [n'|].
  - eexists. split; [reflexivity | ]. split; [reflexivity | intros _; reflexivity].
  - eexists. split; [reflexivity | ]. split; [reflexivity | intros N; congruence].
Qed.

(** A stored contact that has a name is among the contacts a search for
    that name yields. *)
Theorem search_finds_stored_name (self : ContactManager) (c : contact) :
  reachable self -> In c (contacts_list self) -> name c <> [] ->
  exists l, search (VStr (name c)) self = (Return l, self) /\ In c l.
Proof.
  intros R Hc Hn. assert (H := reachable_inv self R).
  assert (Vc : valid_contact c).
  { rewrite (inv_list _ H) in Hc. apply in_map_iff in Hc.
    destruct Hc as [kv [<- Hkv]]. assert (V := inv_valid _ H).
    rewrite Forall_forall in V. apply (V kv Hkv). }
  unfold search. rewrite (name_trimmed _ Vc).
  destruct (lower (name c)) as [|a q] eqn:Eq.
  { apply (proj1 (lower_empty (name c))) in Eq. congruence. }
  eexists. split; [reflexivity | ].
  apply filter_In. split; [exact Hc | ].
  rewrite Eq, contains_refl. reflexivity.
Qed.

End StoreFacts.

Lemma view_contacts_distinct_witness :
  let m := run_call (T := ascii_text)
             (CallAdd (VStr (lit "Kamal")) (VStr (lit "98765-43210")))
             (run_call (T := ascii_text)
                (CallAdd (VStr (lit "kkg1")) (VStr (lit "98765-43211")))
                (Manager [] [])) in
  reachable (T := ascii_text) m /\ NoDup (contacts_list m).
Proof.
  intros m.
  assert (R : reachable (T := ascii_text) m)
    by (apply reach_call, reach_call, reachable_empty).
  split; [exact R | ].
  apply (proj2 (view_contacts_distinct (T := ascii_text) m R)).
Defined.

Lemma phones_unique_witness :
  let m := run_call (T := ascii_text)
             (CallAdd (VStr (lit "Kamal")) (VStr (lit "98765-43210")))
             (run_call (T := ascii_text)
                (CallLoad (ReadData (VList
                   [VDict [(lit "name", VStr (lit "A")); (lit "phone", VStr (lit "123"))];
                    VDict [(lit "name", VStr (lit "B")); (lit "phone", VStr (lit "98765 43211"))];
                    VDict [(lit "name", VStr (lit "C")); (lit "phone", VStr (lit "098765-43211"))]])))
                (Manager [] [])) in
  reachable (T := ascii_text) m /\
  map phone (filter has_phone (contacts_list m)) =
    [lit "9876543211"; lit "9876543210"] /\
  NoDup (map phone (filter has_phone (contacts_list m))).
Proof.
  intros m.
  assert (R : reachable (T := ascii_text) m)
    by (apply reach_call, reach_call, reachable_empty).
  split; [exact R | split; [reflexivity | ]].
  apply (phones_unique (T := ascii_text) m R).
Defined.

Lemma add_contact_twice_witness :
  let c := Contact (lit "Kamal") (lit "9876543210") in
  let m := Manager [(lit "9876543210", c)] [c] in
  add_contact (T := ascii_text) (VStr (lit "Kamal")) (VStr (lit "98765-43210"))
              (Manager [] []) = (Return c, m) /\
  normalize_phone (T := ascii_text) (VStr (lit "+91 9876543210")) =
  normalize_phone (T := ascii_text) (VStr (lit "98765-43210")) /\
  exists e,
    add_contact (T := ascii_text) (VStr (lit "Other")) (VStr (lit "+91 9876543210")) m =
      (Raise e, m) /\
    exn_kind e = ValueError.
Proof.
  intros c m. split; [reflexivity | split; [reflexivity | ]].
  destruct (add_contact_twice (T := ascii_text)
              (VStr (lit "Kamal")) (VStr (lit "98765-43210"))
              (VStr (lit "Other")) (VStr (lit "+91 9876543210"))
              (Manager [] []) m c eq_refl eq_refl) as [e [E [K _]]].
  exists e. split; [exact E | exact K].
Defined.

Lemma search_finds_stored_name_witness :
  let c := Contact (lit "Kamal") (lit "9876543210") in
  let m := run_call (T := ascii_text)
             (CallAdd (VStr (lit "Kamal")) (VStr (lit "98765-43210")))
             (Manager [] []) in
  reachable (T := ascii_text) m /\ In c (contacts_list m) /\ name c <> [] /\
  exists l, search (T := ascii_text) (VStr (name c)) m = (Return l, m) /\ In c l.
Proof.
  intros c m.
  assert (R : reachable (T := ascii_text) m) by (apply reach_call, reachable_empty).
  assert (I : In c (contacts_list m)) by (left; reflexivity).
  assert (N : name c <> []) by discriminate.
  split; [exact R | split; [exact I | split; [exact N | ]]].
  apply (search_finds_stored_name (T := ascii_text) m c R I N).
Defined.

(** ** Deleting and adding again *)

Section DeleteFacts.
Context {T : PyText}.

Lemma delete_falls_back (s : str) (self : ContactManager) :
  store_inv self -> strip s <> [] ->
  (forall k, normalize_phone (VStr s) = Some k ->
             ~ In k (OrderedDict.keys (contacts self))) ->
  delete (VStr s) self = delete_named s self.
Proof.
  intros H Hs A. rewrite (delete_spec s self H).
  destruct (strip s); [congruence | ].
  destruct (normalize_phone (VStr s)) as [k|]; [ | reflexivity].
  rewrite (proj2 (contains_key_false (contacts self) k) (A k eq_refl)).
  reflexivity.
Qed.

Lemma filter_twice {A : Type} (f : A -> bool) (l : list A) :
  filter f (filter f l) = filter f l.
Proof.
  apply filter_filter_in. intros x _. destruct (f x); reflexivity.
Qed.

Lemma existsb_filtered_out {A : Type} (m : A -> bool) (l : list A) :
  existsb m (filter (fun x => negb (m x)) l) = false.
Proof.
  induction l as [|x l IH]; simpl; [reflexivity | ].
  destruct (m x) eqn:E; simpl; [exact IH | rewrite E; exact IH].
Qed.

Lemma values_without_matches (s : str) (d : odict) :
  OrderedDict.values (filter (fun kv => negb (name_matches s (snd kv))) d) =
  filter (fun c => negb (name_matches s c)) (OrderedDict.values d).
Proof.
  unfold OrderedDict.values. induction d as [|[k v] d IH]; [reflexivity | ].
  simpl. destruct (name_matches s v); simpl; rewrite IH; reflexivity.
Qed.

(** When [delete] goes by the name (the identifier is not blank and does
    not normalize to a key of the index), no record left in the store has
    that name, and a second [delete] with the same identifier returns
    [False] and changes nothing. *)
Theorem delete_by_name_is_final (s : str) (self : ContactManager) :
  reachable self -> strip s <> [] ->
  (forall k, normalize_phone (VStr s) = Some k ->
             ~ In k (OrderedDict.keys (contacts self))) ->
  exists b self',
    delete (VStr s) self = (Return b, self') /\
    Forall (fun c => name_matches s c = false) (contacts_list self') /\
    delete (VStr s) self' = (Return false, self').
Proof.
  intros R Hs A. assert (H := reachable_inv self R).
  rewrite (delete_falls_back s self H Hs A). unfold delete_named at 1.
  set (d' := filter (fun kv => negb (name_matches s (snd kv))) (contacts self)).
  eexists; eexists. split; [reflexivity | ]. cbn [contacts_list].
  assert (H' : store_inv (Manager d' (OrderedDict.values d'))).
  { apply store_inv_filter. rewrite <- (store_inv_shape _ H). exact H. }
  split.
  - unfold d'. rewrite values_without_matches. apply Forall_forall.
    intros c Hc. apply filter_In in Hc. apply negb_true_iff, Hc.
  - rewrite (delete_falls_back s _ H' Hs).
    + unfold delete_named. cbn [contacts contacts_list]. unfold d'.
      rewrite filter_twice, values_without_matches, existsb_filtered_out.
      reflexivity.
    + intros k Ek Hk. apply (A k Ek). cbn [contacts] in Hk.
      unfold OrderedDict.keys in *. apply in_map_iff in Hk.
      destruct Hk as [kv [E Hkv]]. apply filter_In in Hkv.
      apply in_map_iff. exists kv. tauto.
Qed.

(** [delete] with the name of a stored contact returns [True] and removes
    that contact, provided the name is not blank and does not normalize to
    a key of the index. *)
Theorem delete_removes_stored_name (self : ContactManager) (c : contact) :
  reachable self -> In c (contacts_list self) -> name c <> [] ->
  (forall k, normalize_phone (VStr (name c)) = Some k ->
             ~ In k (OrderedDict.keys (contacts self))) ->
  exists self',
    delete (VStr (name c)) self = (Return true, self') /\
    ~ In c (contacts_list self').
Proof.
  intros R Hc Hn A. assert (H := reachable_inv self R).
  assert (Vc : valid_contact c).
  { rewrite (inv_list _ H) in Hc. apply in_map_iff in Hc.
    destruct Hc as [kv [<- Hkv]]. assert (V := inv_valid _ H).
    rewrite Forall_forall in V. apply (V kv Hkv). }
  assert (Hs : strip (name c) <> []) by (rewrite (name_trimmed _ Vc); exact Hn).
  assert (M : name_matches (name c) c = true).
  { unfold name_matches. rewrite (name_trimmed _ Vc). apply str_eqb_refl. }
  rewrite (delete_falls_back (name c) self H Hs A). unfold delete_named.
  assert (E : existsb (name_matches (name c)) (contacts_list self) = true).
  { apply existsb_exists. exists c. split; assumption. }
  rewrite E. eexists. split; [reflexivity | ]. cbn [contacts_list].
  rewrite values_without_matches. intros Hin. apply filter_In in Hin.
  destruct Hin as [_ F]. rewrite M in F. discriminate.
Qed.

(** When [delete] goes by the key (the identifier normalizes to a key of
    the index), it returns [True], the key is free again, and an
    [add_contact] with that phone and a name that normalizes succeeds. *)
Theorem delete_then_add_again (s : str) (k n : str) (nm : value)
    (self : ContactManager) :
  reachable self -> strip s <> [] ->
  normalize_phone (VStr s) = Some k -> In k (OrderedDict.keys (contacts self)) ->
  normalize_name nm = Some n ->
  exists self' self'',
    delete (VStr s) self = (Return true, self') /\
    ~ In k (OrderedDict.keys (contacts self')) /\
    add_contact nm (VStr s) self' = (Return (Contact n k), self'').
Proof.
  intros R Hs Ek Hk En. assert (H := reachable_inv self R).
  rewrite (delete_spec s self H).
  destruct (strip s); [congruence | ]. rewrite Ek.
  rewrite (proj2 (contains_key_true (contacts self) k) Hk).
  assert (Free : ~ In k (OrderedDict.keys (without k (contacts self)))).
  { unfold OrderedDict.keys, without. intros Hin. apply in_map_iff in Hin.
    destruct Hin as [kv [E Hkv]]. apply filter_In in Hkv. destruct Hkv as [_ F].
    apply negb_true_iff, str_eqb_neq in F. congruence. }
  eexists; eexists. split; [reflexivity | ]. cbn [contacts].
  split; [exact Free | ].
  rewrite add_contact_spec, En, Ek. cbn [contacts].
  rewrite (proj2 (contains_key_false _ k) Free). reflexivity.
Qed.

End DeleteFacts.

Lemma delete_by_name_is_final_witness :
  let m := run_call (T := ascii_text)
             (CallAdd (VStr (lit "Kamal")) (VStr (lit "98765-43210")))
             (run_call (T := ascii_text)
                (CallAdd (VStr (lit "kamal")) (VStr (lit "98765-43211")))
                (Manager [] [])) in
  reachable (T := ascii_text) m /\
  strip (T := ascii_text) (lit "KAMAL") <> [] /\
  exists b self',
    delete (T := ascii_text) (VStr (lit "KAMAL")) m = (Return b, self') /\
    delete (T := ascii_text) (VStr (lit "KAMAL")) self' = (Return false, self').
Proof.
  intros m.
  assert (R : reachable (T := ascii_text) m)
    by (apply reach_call, reach_call, reachable_empty).
  assert (S : strip (T := ascii_text) (lit "KAMAL") <> []) by discriminate.
  split; [exact R | split; [exact S | ]].
  destruct (delete_by_name_is_final (T := ascii_text) (lit "KAMAL") m R S)
    as [b [self' [E [_ E']]]].
  - intros k Ek. discriminate.
  - exists b, self'. split; [exact E | exact E'].
Defined.

Lemma delete_removes_stored_name_witness :
  let c := Contact (lit "Kamal") (lit "9876543210") in
  let m := run_call (T := ascii_text)
             (CallAdd (VStr (lit "Kamal")) (VStr (lit "98765-43210")))
             (Manager [] []) in
  reachable (T := ascii_text) m /\ In c (contacts_list m) /\
  exists self',
    delete (T := ascii_text) (VStr (name c)) m = (Return true, self') /\
    ~ In c (contacts_list self').
Proof.
  intros c m.
  assert (R : reachable (T := ascii_text) m) by (apply reach_call, reachable_empty).
  assert (I : In c (contacts_list m)) by (left; reflexivity).
  split; [exact R | split; [exact I | ]].
  apply (delete_removes_stored_name (T := ascii_text) m c R I).
  - discriminate.
  - intros k Ek. discriminate.
Defined.

Lemma delete_then_add_again_witness :
  let m := run_call (T := ascii_text)
             (CallAdd (VStr (lit "Kamal")) (VStr (lit "98765-43210")))
             (Manager [] []) in
  reachable (T := ascii_text) m /\
  exists self' self'',
    delete (T := ascii_text) (VStr (lit "98765-43210")) m = (Return true, self') /\
    ~ In (lit "9876543210") (OrderedDict.keys (contacts self')) /\
    add_contact (T := ascii_text) (VStr (lit "Again")) (VStr (lit "98765-43210")) self' =
      (Return (Contact (lit "Again") (lit "9876543210")), self'').
Proof.
  intros m.
  assert (R : reachable (T := ascii_text) m) by (apply reach_call, reachable_empty).
  split; [exact R | ].
  apply (delete_then_add_again (T := ascii_text) (lit "98765-43210")
           (lit "9876543210") (lit "Again") (VStr (lit "Again")) m R).
  - discriminate.
  - reflexivity.
  - left. reflexivity.
  - reflexivity.
Defined.

(** ** Loading, the list helper and the script *)

Section LoadFacts.
Context {T : PyText}.

(** [load] replaces the store: what it returns and what it leaves in the
    manager do not depend on what the manager held before the call. *)
Theorem load_replaces_store (file : read_result) (self : ContactManager) :
  load file self = load file (Manager [] []).
Proof. rewrite !load_spec. reflexivity. Qed.

Lemma import_entries_origin (l : list value) (loaded : odict) :
  length (import_entries l loaded) <= length loaded + length l /\
  forall k c, In (k, c) (import_entries l loaded) ->
    In (k, c) loaded \/ exists raw, In raw l /\ entry_record raw = Some (k, c).
Proof.
  revert loaded; induction l as [|raw l IH]; intros loaded; cbn [import_entries].
  - split; [simpl; lia | intros k c H; left; exact H].
  - assert (Skip : length (import_entries l loaded) <= length loaded + length (raw :: l) /\
      forall k c, In (k, c) (import_entries l loaded) ->
        In (k, c) loaded \/
        exists raw', In raw' (raw :: l) /\ entry_record raw' = Some (k, c)).
    { destruct (IH loaded) as [L O]. split; [simpl; lia | ].
      intros k c H. destruct (O k c H) as [X | [raw' [I E]]]; [left; exact X | ].
      right. exists raw'. split; [right; exact I | exact E]. }
    destruct (entry_record raw) as [[k0 c0]|] eqn:E0; [ | exact Skip].
    destruct (OrderedDict.contains_key loaded k0); [exact Skip | ].
    destruct (IH (loaded ++ [(k0, c0)])) as [L O]. split.
    + rewrite length_app in L. simpl in *. lia.
    + intros k c H. destruct (O k c H) as [X | [raw' [I E]]].
      * apply in_app_or in X. destruct X as [X | [X | []]]; [left; exact X | ].
        inversion X; subst. right. exists raw. split; [left; reflexivity | exact E0].
      * right. exists raw'. split; [right; exact I | exact E].
Qed.

(** [load] of a list invents nothing: it leaves at most as many records
    as the list has entries, and each record comes from an entry that is
    an object, with the normalized name of its "name" field (empty when
    that does not normalize) and the normalized phone of its "phone" field
    (empty when that does not normalize). *)
Theorem load_records_origin (l : list value) (self : ContactManager) :
  let self' := snd (load (ReadData (VList l)) self) in
  length (contacts_list self') <= length l /\
  forall c, In c (contacts_list self') ->
    exists d, In (VDict d) l /\
      name c = or_empty (normalize_name (dict_get d (lit "name") VNone)) /\
      phone c = or_empty (normalize_phone (dict_get d (lit "phone") VNone)).
Proof.
  rewrite load_spec. cbn [snd contacts_list].
  destruct (import_entries_origin l []) as [L O]. split.
  - unfold OrderedDict.values. rewrite length_map. simpl in L. exact L.
  - intros c Hc. apply in_map_iff in Hc. destruct Hc as [[k c'] [E Hkv]].
    cbn [snd] in E. subst c'.
    destruct (O k c Hkv) as [[] | [raw [I E]]].
    destruct raw as [| b | z | f | s | l0 | d]; try discriminate.
    exists d. split; [exact I | ]. unfold entry_record in E.
    destruct (normalize_name (dict_get d (lit "name") VNone)) as [n|];
      destruct (normalize_phone (dict_get d (lit "phone") VNone)) as [p|];
      inversion E; subst; split; reflexivity.
Qed.

Lemma remove_first_equal_spec (ct : contact) (l : list contact) :
  (~ In ct l -> remove_first_equal ct l = l) /\
  (In ct l -> exists l1 l2,
     l = l1 ++ ct :: l2 /\ ~ In ct l1 /\ remove_first_equal ct l = l1 ++ l2).
Proof.
  induction l as [|c l [IH1 IH2]]; cbn [remove_first_equal].
  - split; [reflexivity | intros []].
  - destruct (str_eqb (name c) (name ct) && str_eqb (phone c) (phone ct)) eqn:E.
    + apply contact_eqb_eq in E. subst c. split.
      * intros N. exfalso. apply N. left. reflexivity.
      * intros _. exists [], l. split; [reflexivity | split; [intros [] | reflexivity]].
    + assert (Ne : c <> ct).
      { intros ->. rewrite (proj2 (contact_eqb_eq ct ct) eq_refl) in E. discriminate. }
      split.
      * intros N. rewrite IH1; [reflexivity | ]. intros H. apply N. right. exact H.
      * intros [H | H]; [contradiction | ].
        destruct (IH2 H) as [l1 [l2 [E1 [N1 E2]]]].
        exists (c :: l1), l2. rewrite E1 at 1. rewrite E2.
        split; [reflexivity | split; [ | reflexivity]].
        intros [X | X]; [contradiction | exact (N1 X)].
Qed.

(** [_remove_from_list] never touches the index.  Given a contact that is
    not in the list, it leaves the list as it is; otherwise it removes the
    first occurrence of that contact and nothing else. *)
Theorem remove_from_list_first (ct : contact) (self : ContactManager) :
  (~ In ct (contacts_list self) -> _remove_from_list ct self = (Return tt, self)) /\
  (In ct (contacts_list self) ->
   exists l1 l2,
     contacts_list self = l1 ++ ct :: l2 /\ ~ In ct l1 /\
     _remove_from_list ct self = (Return tt, Manager (contacts self) (l1 ++ l2))).
Proof.
  cbv [_remove_from_list bind get_contacts_list set_contacts_list].
  destruct (remove_first_equal_spec ct (contacts_list self)) as [A B]. split.
  - intros N. rewrite (A N). destruct self; reflexivity.
  - intros H. destruct (B H) as [l1 [l2 [E1 [N1 E2]]]].
    exists l1, l2. rewrite E2. split; [exact E1 | split; [exact N1 | reflexivity]].
Qed.




End LoadFacts.

Lemma remove_from_list_first_witness :
  let a := Contact (lit "A") (lit "") in
  let b := Contact (lit "B") (lit "1111111111") in
  let m := Manager [] [a; b; a] in
  In b (contacts_list m) /\
  exists l1 l2,
    contacts_list m = l1 ++ b :: l2 /\ ~ In b l1 /\
    _remove_from_list b m = (Return tt, Manager [] (l1 ++ l2)).
Proof.
  intros a b m.
  assert (I : In b (contacts_list m)) by (right; left; reflexivity).
  split; [exact I | ].
  apply (proj2 (remove_from_list_first b m) I).
Defined.


Lemma load_records_origin_witness :
  let d := [(lit "name", VStr (lit " A ")); (lit "phone", VStr (lit "123"))] in
  let c := Contact (lit "A") (lit "") in
  In c (contacts_list (snd (load (T := ascii_text)
                              (ReadData (VList [VInt 1; VDict d])) (Manager [] [])))) /\
  exists d', In (VDict d') [VInt 1; VDict d] /\
    name c = or_empty (normalize_name (T := ascii_text) (dict_get d' (lit "name") VNone)) /\
    phone c = or_empty (normalize_phone (T := ascii_text) (dict_get d' (lit "phone") VNone)).
Proof.
  intros d c.
  assert (I : In c (contacts_list (snd (load (T := ascii_text)
                 (ReadData (VList [VInt 1; VDict d])) (Manager [] [])))))
    by (left; reflexivity).
  split; [exact I | ].
  apply (proj2 (load_records_origin (T := ascii_text)
                  [VInt 1; VDict d] (Manager [] [])) c I).
Defined.
